(** * configuration: a live-reloading key/value store

    Shallow embedding of [configuration.go] (package [configuration]) and
    the properties of its parser, its store operations and its
    reconciliation pass.

    Go strings are byte sequences: they are modelled as [string], whose
    characters are the 8-bit [ascii] values.  The [parameters] field is a
    Go map that the constructor never allocates, so the model keeps the
    difference between the nil map and an allocated map: reading the nil
    map yields the zero value, assigning to it panics. *)

From Stdlib Require Import ZArith.
From stdpp Require Import gmap strings list fin_maps.

Local Open Scope string_scope.

(** ** Byte strings *)

Module Bytes.

(** [byte n] is the byte with numeric value [n]. *)
Definition byte (n : nat) : Ascii.ascii := Ascii.ascii_of_nat n.

Fixpoint of_codes (l : list nat) : string :=
  match l with
  | [] => EmptyString
  | n :: r => String (byte n) (of_codes r)
  end.

(** Go's [s[:i]]. *)
Fixpoint slice_to (i : nat) (s : string) : string :=
  match i, s with
  | S j, String c r => String c (slice_to j r)
  | _, _ => EmptyString
  end.

(** Go's [s[i:]]. *)
Fixpoint slice_from (i : nat) (s : string) : string :=
  match i, s with
  | S j, String _ r => slice_from j r
  | _, _ => s
  end.

Fixpoint has_prefix (p s : string) : bool :=
  match p, s with
  | EmptyString, _ => true
  | String a p', String b s' => bool_decide (a = b) && has_prefix p' s'
  | String _ _, EmptyString => false
  end.

Definition has_suffix (p s : string) : bool :=
  has_prefix (String.rev p) (String.rev s).

(** [contains_any s chars]: some byte of [s] is one of the bytes of
    [chars]. *)
Fixpoint mem (c : Ascii.ascii) (chars : string) : bool :=
  match chars with
  | EmptyString => false
  | String d r => bool_decide (c = d) || mem c r
  end.

Fixpoint contains_any (s chars : string) : bool :=
  match s with
  | EmptyString => false
  | String c r => mem c chars || contains_any r chars
  end.

End Bytes.

(** ** The part of package [strings] that the parser uses *)

Module strings.
Import Bytes.

(** The encodings, in UTF-8, of the runes for which [unicode.IsSpace]
    holds: the six ASCII ones, U+0085, U+00A0, U+1680, U+2000 to
    U+200A, U+2028, U+2029, U+202F, U+205F and U+3000. *)
Definition space_encodings : list string :=
  [ of_codes [9]; of_codes [10]; of_codes [11]; of_codes [12];
    of_codes [13]; of_codes [32];
    of_codes [194; 133]; of_codes [194; 160];
    of_codes [225; 154; 128];
    of_codes [226; 128; 128]; of_codes [226; 128; 129];
    of_codes [226; 128; 130]; of_codes [226; 128; 131];
    of_codes [226; 128; 132]; of_codes [226; 128; 133];
    of_codes [226; 128; 134]; of_codes [226; 128; 135];
    of_codes [226; 128; 136]; of_codes [226; 128; 137];
    of_codes [226; 128; 138];
    of_codes [226; 128; 168]; of_codes [226; 128; 169];
    of_codes [226; 128; 175];
    of_codes [226; 129; 159];
    of_codes [227; 128; 128] ].

(** Width in bytes of the white-space rune [s] starts with, if any. *)
Definition leading_space (s : string) : option nat :=
  String.length <$> List.find (fun e => has_prefix e s) space_encodings.

(** Width in bytes of the white-space rune [s] ends with, if any. *)
Definition trailing_space (s : string) : option nat :=
  String.length <$> List.find (fun e => has_suffix e s) space_encodings.

(** [TrimLeftFunc(s, unicode.IsSpace)]; [n] bounds the number of runes
    looked at. *)
Fixpoint trim_left (n : nat) (s : string) : string :=
  match n with
  | O => s
  | S m =>
      match leading_space s with
      | Some w => trim_left m (slice_from w s)
      | None => s
      end
  end.

(** [TrimRightFunc(s, unicode.IsSpace)]. *)
Fixpoint trim_right (n : nat) (s : string) : string :=
  match n with
  | O => s
  | S m =>
      match trailing_space s with
      | Some w => trim_right m (slice_to (String.length s - w) s)
      | None => s
      end
  end.

(** [strings.TrimSpace]: the slice of [s] with all leading and trailing
    white space removed. A string has no more runes than bytes. *)
Definition TrimSpace (s : string) : string :=
  let t := trim_left (String.length s) s in
  trim_right (String.length t) t.

(** [strings.IndexAny(s, chars)] for ASCII [chars]: index of the first
    byte of [s] that is one of [chars]; [None] stands for Go's [-1]. *)
Fixpoint IndexAny (s chars : string) : option nat :=
  match s with
  | EmptyString => None
  | String c r =>
      if mem c chars then Some O else S <$> IndexAny r chars
  end.

End strings.

(** ** Errors *)

Inductive Errno := ENOENT | EACCES | EIO.

(** The error values the package meets: its own sentinel
    [ErrEmptyParameter], values made by [errors.New] at the place of the
    failure, and the [*fs.PathError] of [os.Stat] and [os.Open]. *)
Inductive error :=
| ErrEmptyParameter
| errorString (text : string)
| PathError (op path : string) (errno : Errno).

Inductive sentinel := IsErrEmptyParameter | IsErrNotExist.

Module errors.

(** [errors.Is(err, target)] for the two targets the package tests. A
    value made by [errors.New] is only ever equal to itself, so it
    matches neither. *)
Definition Is (err : error) (target : sentinel) : bool :=
  match target, err with
  | IsErrEmptyParameter, ErrEmptyParameter => true
  | IsErrNotExist, PathError _ _ ENOENT => true
  | _, _ => false
  end.

Definition errno_text (e : Errno) : string :=
  match e with
  | ENOENT => "no such file or directory"
  | EACCES => "permission denied"
  | EIO => "input/output error"
  end.

(** [err.Error()], what the verb [%v] prints. *)
Definition Error (err : error) : string :=
  match err with
  | ErrEmptyParameter => "empty parameter"
  | errorString text => text
  | PathError op path e => op ++ " " ++ path ++ ": " ++ errno_text e
  end.

End errors.

(** ** The parser *)

Definition SplitConfigurationFileLine (s : string)
  : (string * string) + error :=
  let s := strings.TrimSpace s in
  if bool_decide (String.length s = 0) then inr ErrEmptyParameter
  else
    match strings.IndexAny s "=:" with
    | None => inr (errorString "missing delimiter (':' or '=')")
    | Some i =>
        let first := Bytes.slice_to i s in
        let second := Bytes.slice_from (i + 1) s in
        inl (first, second)
    end.

(** ** The world the store lives in *)

(** What [os.Stat] reports of a file: its modification time, as
    nanoseconds since the Unix epoch. A [time.Time] is wider than an
    [int64] of nanoseconds, hence [Z]. *)
Record FileInfo := { ModTime : Z }.

(** The file system at the moment of a call: what [os.Stat] and
    [os.Open] answer for each path. [os.Open] answers with the bytes the
    scanner will read. *)
Record FileSystem := {
  Stat : string -> FileInfo + error;
  Open : string -> string + error
}.

Inductive syscall :=
| SysStat (path : string)
| SysOpen (path : string).

(** [sync.RWMutex]. *)
Inductive RWMutex :=
| Unlocked
| WriteLocked
| ReadLocked (others : nat).

(** A Go map value: [None] is the nil map. *)
Abbreviation gomap := (option (gmap string string)).

Record Configuration := {
  filename : string;
  lastupdate : Z;
  parameters : gomap;
  mutex : RWMutex;
  ShouldLogUpdates : bool
}.

(** The store, the lines handed to package [log] (without its time
    prefix) and the system calls made, oldest first. *)
Record World := {
  config : Configuration;
  logged : list string;
  syscalls : list syscall
}.

(** Process-wide tunables. *)
Record Globals := {
  MaintenancePace : Z;
  DefaultShouldLog : bool
}.

Definition defaults : Globals :=
  {| MaintenancePace := 1000000000; DefaultShouldLog := true |}.

(** How a call ends: it returns, it panics, or it waits for the mutex. *)
Inductive outcome (A : Type) :=
| Returned (a : A)
| Panicked (reason : string)
| Blocked.
Arguments Returned {A} a.
Arguments Panicked {A} reason.
Arguments Blocked {A}.

Definition M (A : Type) : Type := World -> outcome A * World.

Definition ret {A} (a : A) : M A := fun w => (Returned a, w).

Definition bind {A B} (m : M A) (k : A -> M B) : M B :=
  fun w =>
    match m w with
    | (Returned a, w') => k a w'
    | (Panicked r, w') => (Panicked r, w')
    | (Blocked, w') => (Blocked, w')
    end.

Notation "'let*' x ':=' m 'in' k" := (bind m (fun x => k))
  (at level 10, x name, m at level 100, k at level 200).
Notation "m ';;' k" := (bind m (fun _ => k))
  (at level 100, k at level 200, right associativity).

Definition panic {A} (reason : string) : M A := fun w => (Panicked reason, w).

(** [defer d] around [body]: [d] runs when [body] returns and when it
    panics. *)
Definition deferred {A} (d : World -> World) (body : M A) : M A :=
  fun w =>
    match body w with
    | (Blocked, w') => (Blocked, w')
    | (r, w') => (r, d w')
    end.

Definition get : M Configuration := fun w => (Returned (config w), w).

Definition modify (f : Configuration -> Configuration) : M unit :=
  fun w => (Returned tt,
            {| config := f (config w); logged := logged w; syscalls := syscalls w |}).

Definition Printf (line : string) : M unit :=
  fun w => (Returned tt,
            {| config := config w; logged := (logged w ++ [line])%list; syscalls := syscalls w |}).

Definition sys (e : syscall) : M unit :=
  fun w => (Returned tt,
            {| config := config w; logged := logged w; syscalls := (syscalls w ++ [e])%list |}).

Definition when (b : bool) (m : M unit) : M unit := if b then m else ret tt.

Definition set_filename (f : string) (c : Configuration) : Configuration :=
  {| filename := f; lastupdate := lastupdate c; parameters := parameters c;
     mutex := mutex c; ShouldLogUpdates := ShouldLogUpdates c |}.

Definition set_lastupdate (t : Z) (c : Configuration) : Configuration :=
  {| filename := filename c; lastupdate := t; parameters := parameters c;
     mutex := mutex c; ShouldLogUpdates := ShouldLogUpdates c |}.

Definition set_parameters (p : gomap) (c : Configuration) : Configuration :=
  {| filename := filename c; lastupdate := lastupdate c; parameters := p;
     mutex := mutex c; ShouldLogUpdates := ShouldLogUpdates c |}.

Definition set_mutex (m : RWMutex) (c : Configuration) : Configuration :=
  {| filename := filename c; lastupdate := lastupdate c; parameters := parameters c;
     mutex := m; ShouldLogUpdates := ShouldLogUpdates c |}.

Definition with_config (f : Configuration -> Configuration) (w : World) : World :=
  {| config := f (config w); logged := logged w; syscalls := syscalls w |}.

(** *** The mutex *)

Definition Lock : M unit :=
  fun w =>
    match mutex (config w) with
    | Unlocked => (Returned tt, with_config (set_mutex WriteLocked) w)
    | _ => (Blocked, w)
    end.

Definition Unlock (w : World) : World := with_config (set_mutex Unlocked) w.

Definition RLock : M unit :=
  fun w =>
    match mutex (config w) with
    | Unlocked => (Returned tt, with_config (set_mutex (ReadLocked 0)) w)
    | ReadLocked n => (Returned tt, with_config (set_mutex (ReadLocked (S n))) w)
    | WriteLocked => (Blocked, w)
    end.

Definition RUnlock (w : World) : World :=
  match mutex (config w) with
  | ReadLocked (S n) => with_config (set_mutex (ReadLocked n)) w
  | _ => with_config (set_mutex Unlocked) w
  end.

(** *** Go maps *)

(** [v, found := m[k]]: the nil map reads as the empty one. *)
Definition map_index (m : gomap) (k : string) : string * bool :=
  match m with
  | Some g =>
      match g !! k with
      | Some v => (v, true)
      | None => ("", false)
      end
  | None => ("", false)
  end.

Definition nil_map_panic : string := "assignment to entry in nil map".

(** [c.parameters[k] = v]: panics on the nil map. *)
Definition map_assign (k v : string) : M unit :=
  let* c := get in
  match parameters c with
  | Some g => modify (set_parameters (Some (<[k := v]> g)))
  | None => panic nil_map_panic
  end.

(** ** The parts of packages [time] and [bufio] that reconciliation uses *)

Module time.

(** [time.Unix(sec, nsec)], as nanoseconds since the Unix epoch. *)
Definition Unix (sec nsec : Z) : Z := (sec * 1000000000 + nsec)%Z.

(** [t.After(u)]. *)
Definition After (t u : Z) : bool := (u <? t)%Z.

(** [t.UnixNano()]: the nanoseconds since the epoch as an [int64],
    wrapped around when they do not fit. *)
Definition UnixNano (t : Z) : Z :=
  ((t + 2 ^ 63) mod 2 ^ 64 - 2 ^ 63)%Z.

End time.

Module bufio.

Definition MaxScanTokenSize : Z := 65536.

Definition newline : Ascii.ascii := Bytes.byte 10.
Definition carriage_return : Ascii.ascii := Bytes.byte 13.

(** The lines of [data] as they stand between the newlines; a last line
    without a newline counts when it is not empty. [cur] holds the
    bytes of the line being read. *)
Fixpoint raw_lines (cur data : string) : list string :=
  match data with
  | EmptyString => if bool_decide (cur = EmptyString) then [] else [cur]
  | String c r =>
      if bool_decide (c = newline) then cur :: raw_lines EmptyString r
      else raw_lines (cur ++ String c EmptyString) r
  end.

(** [dropCR]: a final carriage return is removed. *)
Definition dropCR (line : string) : string :=
  if Bytes.has_suffix (String carriage_return EmptyString) line
  then Bytes.slice_to (String.length line - 1) line
  else line.

(** A line fits the scanner's buffer when it is shorter than
    [MaxScanTokenSize]. *)
Definition fits (line : string) : bool :=
  (Z.of_nat (String.length line) <? MaxScanTokenSize)%Z.

(** The tokens whose [scanner.Scan()] is true, in order, when the
    scanner splits with [ScanLines]: [Scan] turns false at the end of
    the data and at the first line that does not fit. *)
Fixpoint tokens (lines : list string) : list string :=
  match lines with
  | [] => []
  | l :: r => if fits l then dropCR l :: tokens r else []
  end.

Definition ScanLines (data : string) : list string :=
  tokens (raw_lines EmptyString data).

End bufio.

(** ** The store *)

Definition quoted (s : string) : string := "'" ++ s ++ "'".

Definition set_should_log (b : bool) (c : Configuration) : Configuration :=
  {| filename := filename c; lastupdate := lastupdate c; parameters := parameters c;
     mutex := mutex c; ShouldLogUpdates := b |}.

(** One turn of the scanner loop of [update], on the text of one line. *)
Definition update_line (text : string) : M unit :=
  let* c := get in
  match SplitConfigurationFileLine text with
  | inr err =>
      when (negb (errors.Is err IsErrEmptyParameter))
        (when (ShouldLogUpdates c)
           (Printf ("Configuration::update error parsing " ++ text ++ ": "
                    ++ errors.Error err)))
  | inl (key, value) =>
      let '(stored, found) := map_index (parameters c) key in
      if found && bool_decide (stored = value) then ret tt
      else
        (if negb found && ShouldLogUpdates c then
           Printf ("Configuration::update storing key " ++ quoted key
                   ++ " with value " ++ quoted value)
         else if found && ShouldLogUpdates c then
           Printf ("Configuration::update updating key " ++ quoted key
                   ++ " value from " ++ quoted stored ++ " to " ++ quoted value)
         else ret tt) ;;
        map_assign key value
  end.

Fixpoint scan (lines : list string) : M unit :=
  match lines with
  | [] => ret tt
  | text :: rest => update_line text ;; scan rest
  end.

(** The reconciliation pass. *)
Definition update (fs : FileSystem) : M unit :=
  let* c := get in
  sys (SysStat (filename c)) ;;
  match Stat fs (filename c) with
  | inr err =>
      when (negb (errors.Is err IsErrNotExist))
        (Printf ("Configuration::Update error opening " ++ filename c ++ ": "
                 ++ errors.Error err))
  | inl stat =>
      if negb (time.After (ModTime stat) (time.Unix 0 (lastupdate c))) then ret tt
      else
        sys (SysOpen (filename c)) ;;
        match Open fs (filename c) with
        | inr err =>
            Printf ("Configuration::Update error opening " ++ filename c ++ ": "
                    ++ errors.Error err)
        | inl data =>
            (* [defer f.Close()] changes nothing the model holds *)
            scan (bufio.ScanLines data) ;;
            modify (set_lastupdate (time.UnixNano (ModTime stat)))
        end
  end.

Definition SetFilename (fs : FileSystem) (name : string) : M unit :=
  Lock ;;
  deferred Unlock
    (let* c := get in
     when (negb (bool_decide (filename c = name)))
       (modify (set_filename name) ;; modify (set_lastupdate 0)) ;;
     update fs).

Definition SetKeyValue (key value : string) : M unit :=
  Lock ;;
  deferred Unlock
    (let* c := get in
     let '(stored, found) := map_index (parameters c) key in
     if found && bool_decide (stored = value) then ret tt
     else
       (if negb found && ShouldLogUpdates c then
          Printf ("Configuration::SetKeyValue storing key " ++ quoted key
                  ++ " with value " ++ quoted value)
        else if found && ShouldLogUpdates c then
          Printf ("Configuration::SetKeyValue updating key " ++ quoted key
                  ++ " value from " ++ quoted stored ++ " to " ++ quoted value)
        else ret tt) ;;
       map_assign key value).

Definition Get (key : string) : M string :=
  RLock ;;
  deferred RUnlock
    (let* c := get in
     ret (fst (map_index (parameters c) key))).

Definition GetSlice (keys : list string) : M (list string) :=
  RLock ;;
  deferred RUnlock
    (let* c := get in
     ret (foldl (fun results key =>
                   (results ++ [fst (map_index (parameters c) key)])%list)
            [] keys)).

Definition Update (fs : FileSystem) : M unit :=
  Lock ;;
  deferred Unlock (update fs).

(** The value the constructor stores in the logging toggle. *)
Definition initial_should_log (g : Globals) (shouldLog : list bool) : bool :=
  if bool_decide (length shouldLog = 1) then default false (shouldLog !! 0)
  else DefaultShouldLog g.

(** The store as the composite literal of [NewWithContext] makes it:
    every field but [filename] has its zero value, so [parameters] is the
    nil map. *)
Definition literal (name : string) : World :=
  {| config := {| filename := name; lastupdate := 0; parameters := None;
                  mutex := Unlocked; ShouldLogUpdates := false |};
     logged := []; syscalls := [] |}.

(** The constructor up to its [return]: the world holds the store whose
    address it returns. The goroutine it starts is [refresher] below. *)
Definition NewWithContext (g : Globals) (fs : FileSystem) (name : string)
    (shouldLog : list bool) : outcome unit * World :=
  (modify (set_should_log (initial_should_log g shouldLog)) ;;
   update fs) (literal name).

Definition New (g : Globals) (fs : FileSystem) (name : string)
    (shouldLog : list bool) : outcome unit * World :=
  NewWithContext g fs name shouldLog.

(** The goroutine of the constructor: one [Update] at each tick, on the
    file system as it is then, until the context is done. *)
Fixpoint refresher (ticks : list FileSystem) : M unit :=
  match ticks with
  | [] => ret tt
  | fs :: later => Update fs ;; refresher later
  end.

(** The calls a client or the refresher makes on a store. *)
Inductive call :=
| CallSetFilename (name : string)
| CallSetKeyValue (key value : string)
| CallGet (key : string)
| CallGetSlice (keys : list string)
| CallUpdate
| CallReconcile.

Definition perform (fs : FileSystem) (op : call) : M unit :=
  match op with
  | CallSetFilename name => SetFilename fs name
  | CallSetKeyValue key value => SetKeyValue key value
  | CallGet key => Get key ;; ret tt
  | CallGetSlice keys => GetSlice keys ;; ret tt
  | CallUpdate => Update fs
  | CallReconcile => update fs
  end.

(** A history: calls, each with the file system it meets. *)
Fixpoint history (h : list (FileSystem * call)) : M unit :=
  match h with
  | [] => ret tt
  | (fs, op) :: later => perform fs op ;; history later
  end.

(** The keys and values of a store. *)
Definition entries (w : World) : gmap string string :=
  default ∅ (parameters (config w)).

(** The two delimiters of a configuration line, [=] and [:]. *)
Definition is_delimiter (d : Ascii.ascii) : Prop :=
  d = Bytes.byte 61 \/ d = Bytes.byte 58.

(** ** What reconciliation is meant to compute

    The effect of a file on the entries, in the words of the
    specification: each line that parses stores its value under its key,
    later lines win, the other lines are skipped. *)

Definition store_line (text : string) (g : gmap string string)
  : gmap string string :=
  match SplitConfigurationFileLine text with
  | inl (key, value) => <[key := value]> g
  | inr _ => g
  end.

Definition parses (text : string) : bool :=
  match SplitConfigurationFileLine text with
  | inl _ => true
  | inr _ => false
  end.

Definition store_lines (lines : list string) (g : gmap string string)
  : gmap string string :=
  foldl (fun acc text => store_line text acc) g lines.

(** The keys a file supplies. *)
Definition supplies (lines : list string) (key : string) : Prop :=
  exists text value,
    text ∈ lines /\ SplitConfigurationFileLine text = inl (key, value).

(** The same, decided, for the file at a path. *)
Definition line_supplies (key text : string) : bool :=
  match SplitConfigurationFileLine text with
  | inl (k, _) => bool_decide (k = key)
  | inr _ => false
  end.

Definition file_supplies (fs : FileSystem) (name key : string) : bool :=
  match Open fs name with
  | inl data => existsb (line_supplies key) (bufio.ScanLines data)
  | inr _ => false
  end.

(** The system calls a pass adds to those already made. *)
Definition calls_of (pass : M unit) (w : World) : list syscall :=
  drop (length (syscalls w)) (syscalls (snd (pass w))).

(** The pass re-reads the file: it opens it, and the open gives its
    bytes to the scanner. *)
Definition rereads (fs : FileSystem) (w : World) : Prop :=
  SysOpen (filename (config w)) ∈ calls_of (update fs) w
  /\ exists data, Open fs (filename (config w)) = inl data.

(** [w] after the system calls [es]. *)
Definition called (es : list syscall) (w : World) : World :=
  {| config := config w; logged := logged w;
     syscalls := (syscalls w ++ es)%list |}.

(** Whether the pass goes past its gate: the file can be statted and is
    newer than what was last applied. *)
Definition newer (fs : FileSystem) (c : Configuration) : bool :=
  match Stat fs (filename c) with
  | inl stat => (lastupdate c <? ModTime stat)%Z
  | inr _ => false
  end.

(** The store a pass leaves when its map is allocated, in the words of
    the specification: nothing changes unless the file can be statted,
    is newer than what was last applied and can be opened; then its
    lines are applied and the time of the stat is recorded. *)
Definition reconciled (fs : FileSystem) (c : Configuration)
    (g : gmap string string) : Configuration :=
  match Stat fs (filename c), Open fs (filename c) with
  | inl stat, inl data =>
      if (lastupdate c <? ModTime stat)%Z then
        set_lastupdate (time.UnixNano (ModTime stat))
          (set_parameters (Some (store_lines (bufio.ScanLines data) g)) c)
      else c
  | _, _ => c
  end.

(** What [SetFilename] does to the store before it reconciles. *)
Definition retarget (name : string) (c : Configuration) : Configuration :=
  if bool_decide (filename c = name) then c
  else set_lastupdate 0 (set_filename name c).

(** [w'] has every key of [w]. *)
Definition keeps_keys (w w' : World) : Prop :=
  forall key, is_Some (entries w !! key) -> is_Some (entries w' !! key).

(** ** Files and stores to run the code on *)

Definition line_feed : string := String bufio.newline EmptyString.

(** A file system with one file, readable or not. *)
Definition one_file (name : string) (mtime : Z) (data : string + error)
  : FileSystem :=
  {| Stat := fun p => if bool_decide (p = name)
                      then inl {| ModTime := mtime |}
                      else inr (PathError "stat" p ENOENT);
     Open := fun p => if bool_decide (p = name) then data
                      else inr (PathError "open" p ENOENT) |}.

Definition no_files : FileSystem :=
  {| Stat := fun p => inr (PathError "stat" p ENOENT);
     Open := fun p => inr (PathError "open" p ENOENT) |}.

(** A store as a test inside the package could build it, with its map
    allocated. *)
Definition allocated (name : string) (last : Z) (g : gmap string string)
  : World :=
  {| config := {| filename := name; lastupdate := last; parameters := Some g;
                  mutex := Unlocked; ShouldLogUpdates := true |};
     logged := []; syscalls := [] |}.

(** The store [New] returns when there is no file yet at its path. *)
Definition fresh_store : World := snd (New defaults no_files "app.conf" []).

(** A file that can be statted and not opened, and a store with one
    entry that last applied an older state of it. *)
Definition unreadable : FileSystem :=
  one_file "app.conf" 2000 (inr (PathError "open" "app.conf" EACCES)).

Definition store_a1 : World := allocated "app.conf" 1000 {[ "a" := "1" ]}.

(** ** Notions for the further properties *)

(** What a read of the map gives for [key]: the value stored, or the
    zero value of [string]. *)
Definition stored (w : World) (key : string) : string :=
  default "" (entries w !! key).

(** The times [UnixNano] keeps as they are. *)
Definition int64 (t : Z) : Prop := (- 2 ^ 63 <= t < 2 ^ 63)%Z.

(** What a pass on store [c] reads: the answer of the stat and the bytes
    of the file, when the stat succeeds, the file is newer than what was
    last applied and the open succeeds. *)
Definition file_read (fs : FileSystem) (c : Configuration)
  : option (FileInfo * string) :=
  match Stat fs (filename c), Open fs (filename c) with
  | inl stat, inl data =>
      if (lastupdate c <? ModTime stat)%Z then Some (stat, data) else None
  | _, _ => None
  end.

(** The line a pass hands to the logger when the stat or the open
    fails; both branches print the same text. *)
Definition open_error_line (path : string) (err : error) : string :=
  "Configuration::Update error opening " ++ path ++ ": " ++ errors.Error err.

(** The calls that take the mutex for writing. *)
Definition is_writer (op : call) : bool :=
  match op with
  | CallSetFilename _ | CallSetKeyValue _ _ | CallUpdate => true
  | _ => false
  end.

(** A line with nothing but white space. *)
Definition blank (text : string) : bool :=
  bool_decide (strings.TrimSpace text = EmptyString).

(** The six ASCII white-space bytes. *)
Definition ascii_space : string := Bytes.of_codes [9; 10; 11; 12; 13; 32].

(** The lines [SetKeyValue] hands to the logger. *)
Definition stored_line (key value : string) : string :=
  "Configuration::SetKeyValue storing key " ++ quoted key
  ++ " with value " ++ quoted value.

Definition updated_line (key old value : string) : string :=
  "Configuration::SetKeyValue updating key " ++ quoted key
  ++ " value from " ++ quoted old ++ " to " ++ quoted value.

(** * Properties *)

(** ** The parser *)

Section Parser.
Import Bytes strings.

Lemma app_cons c r t : String c r ++ t = String c (r ++ t).
Proof. reflexivity. Qed.

Lemma app_empty t : EmptyString ++ t = t.
Proof. reflexivity. Qed.

Lemma IndexAny_None s chars :
  IndexAny s chars = None <-> contains_any s chars = false.
Proof.
  induction s as [|c r IH]; simpl; [done|].
  destruct (mem c chars); simpl; [split; discriminate|].
  destruct (IndexAny r chars); simpl.
  - split; [discriminate|]. intros H. apply IH in H. discriminate.
  - split; [intros _; by apply IH | done].
Qed.

(** The index found is that of the first delimiter: what precedes
    holds none, and the three pieces make up the string. *)
Lemma IndexAny_Some s chars i :
  IndexAny s chars = Some i ->
  exists d,
    s = slice_to i s ++ String d (slice_from (i + 1) s)
    /\ mem d chars = true
    /\ contains_any (slice_to i s) chars = false.
Proof.
  revert i. induction s as [|c r IH]; simpl; intros i; [discriminate|].
  destruct (mem c chars) eqn:Hc.
  - intros [= <-]. exists c. simpl. rewrite app_empty. by destruct r.
  - destruct (IndexAny r chars) as [j|]; simpl; [|discriminate].
    intros [= <-]. destruct (IH j eq_refl) as (d & Hs & Hd & Hk).
    exists d. simpl. rewrite Hc, ?app_cons. simpl. split_and!; [|done..].
    f_equal. exact Hs.
Qed.

Lemma IndexAny_first key d value chars :
  mem d chars = true ->
  contains_any key chars = false ->
  IndexAny (key ++ String d value) chars = Some (String.length key).
Proof.
  intros Hd. induction key as [|c r IH]; simpl.
  - intros _. rewrite ?app_empty. simpl. by rewrite Hd.
  - intros [Hc Hr]%orb_false_iff. rewrite ?app_cons. simpl.
    by rewrite Hc, (IH Hr).
Qed.

Lemma slice_to_app key rest :
  slice_to (String.length key) (key ++ rest) = key.
Proof.
  induction key as [|c r IH]; simpl; [by destruct rest|].
  rewrite ?app_cons. simpl. by rewrite IH.
Qed.

Lemma slice_from_app key d value :
  slice_from (String.length key + 1) (key ++ String d value) = value.
Proof.
  induction key as [|c r IH]; simpl; [done|]. rewrite ?app_cons. exact IH.
Qed.

Lemma contains_any_app key rest chars :
  contains_any (key ++ rest) chars
  = contains_any key chars || contains_any rest chars.
Proof.
  induction key as [|c r IH]; simpl; [done|].
  rewrite ?app_cons. simpl. by rewrite IH, orb_assoc.
Qed.

Lemma length_zero_empty s : String.length s = 0 <-> s = EmptyString.
Proof. by destruct s. Qed.

(** The parser, told by the trimmed line alone. *)
Lemma split_spec line key d value :
  TrimSpace line = key ++ String d value ->
  mem d "=:" = true ->
  contains_any key "=:" = false ->
  SplitConfigurationFileLine line = inl (key, value).
Proof.
  intros Ht Hd Hk. unfold SplitConfigurationFileLine. rewrite Ht.
  rewrite bool_decide_eq_false_2.
  - rewrite (IndexAny_first _ _ _ _ Hd Hk).
    by rewrite slice_to_app, slice_from_app.
  - rewrite length_zero_empty. by destruct key.
Qed.

Lemma split_success line key value :
  SplitConfigurationFileLine line = inl (key, value) ->
  exists d, TrimSpace line = key ++ String d value
            /\ mem d "=:" = true /\ contains_any key "=:" = false.
Proof.
  unfold SplitConfigurationFileLine. case_bool_decide; [discriminate|].
  destruct (IndexAny (TrimSpace line) "=:") as [i|] eqn:Hi; [|discriminate].
  intros [= <- <-]. destruct (IndexAny_Some _ _ _ Hi) as (d & ? & ? & ?).
  by exists d.
Qed.

End Parser.

Lemma mem_delimiter d :
  Bytes.mem d "=:" = true <-> is_delimiter d.
Proof.
  unfold is_delimiter. simpl.
  rewrite orb_false_r, orb_true_iff, !bool_decide_eq_true. tauto.
Qed.

(** C6. A line whose trimmed form is not empty and holds a [=] or a [:]
    parses: the trimmed form is [key], one delimiter, [value], where
    [key] holds no delimiter (so the split is at the first one, of either
    kind) and neither part is trimmed again. A line that is exactly
    [k=v] or [k:v], with nothing to trim, gives [k] and [v]. *)
Theorem C6_split_at_first_delimiter (line : string) :
  (strings.TrimSpace line <> EmptyString ->
   Bytes.contains_any (strings.TrimSpace line) "=:" = true ->
   exists key d value,
     strings.TrimSpace line = key ++ String d value
     /\ is_delimiter d
     /\ Bytes.contains_any key "=:" = false
     /\ SplitConfigurationFileLine line = inl (key, value))
  /\ (forall k d v,
        line = k ++ String d v ->
        is_delimiter d ->
        Bytes.contains_any k "=:" = false ->
        strings.TrimSpace line = line ->
        SplitConfigurationFileLine line = inl (k, v)).
Proof.
  split.
  - intros _ Hany.
    destruct (strings.IndexAny (strings.TrimSpace line) "=:") as [i|] eqn:Hi.
    + destruct (IndexAny_Some _ _ _ Hi) as (d & Ht & Hd & Hk).
      eexists _, d, _. split_and!; [exact Ht | by apply mem_delimiter | exact Hk |].
      by apply (split_spec line _ d).
    + apply IndexAny_None in Hi. congruence.
  - intros k d v Hl Hd Hk Ht. apply (split_spec line k d v); [congruence| |done].
    by apply mem_delimiter.
Qed.

Lemma C6_witness :
  exists key d value,
    strings.TrimSpace "k=v" = key ++ String d value
    /\ is_delimiter d
    /\ Bytes.contains_any key "=:" = false
    /\ SplitConfigurationFileLine "k=v" = inl (key, value).
Proof.
  apply (proj1 (C6_split_at_first_delimiter "k=v")).
  - vm_compute. discriminate.
  - vm_compute. reflexivity.
Defined.

(** C7. A line that is empty once trimmed fails with
    [ErrEmptyParameter]; a line that is not, and holds neither [=] nor
    [:], fails with the missing-delimiter error; [errors.Is] against
    [ErrEmptyParameter] tells the two apart: whenever the parser fails,
    it answers true exactly for the lines that are empty once trimmed. *)
Theorem C7_failures_classified (line : string) :
  (strings.TrimSpace line = EmptyString ->
   SplitConfigurationFileLine line = inr ErrEmptyParameter)
  /\ (strings.TrimSpace line <> EmptyString ->
      Bytes.contains_any (strings.TrimSpace line) "=:" = false ->
      SplitConfigurationFileLine line
      = inr (errorString "missing delimiter (':' or '=')"))
  /\ (forall err,
        SplitConfigurationFileLine line = inr err ->
        (errors.Is err IsErrEmptyParameter = true
         <-> strings.TrimSpace line = EmptyString)).
Proof.
  unfold SplitConfigurationFileLine. split_and!.
  - intros ->. reflexivity.
  - intros Hne Hnone. rewrite bool_decide_eq_false_2 by by rewrite length_zero_empty.
    apply IndexAny_None in Hnone. by rewrite Hnone.
  - intros err. case_bool_decide as Hlen; rewrite length_zero_empty in Hlen.
    + intros [= <-]. done.
    + destruct (strings.IndexAny _ _); [discriminate|]. intros [= <-].
      simpl. split; [discriminate | done].
Qed.

Lemma C7_witness :
  SplitConfigurationFileLine "   " = inr ErrEmptyParameter
  /\ SplitConfigurationFileLine "novalue"
     = inr (errorString "missing delimiter (':' or '=')").
Proof.
  split.
  - apply (proj1 (C7_failures_classified "   ")). vm_compute. reflexivity.
  - apply (proj1 (proj2 (C7_failures_classified "novalue"))).
    + vm_compute. discriminate.
    + vm_compute. reflexivity.
Defined.

(** ** The scanner loop *)

Ltac run :=
  repeat (progress
            (unfold bind, get, modify, Printf, sys, ret, when, panic,
               map_assign, deferred, with_config in *));
  simpl in *.

Lemma set_parameters_same c : set_parameters (parameters c) c = c.
Proof. by destruct c. Qed.

Lemma set_parameters_same_nil c :
  parameters c = None -> set_parameters None c = c.
Proof. intros <-. apply set_parameters_same. Qed.

Lemma set_parameters_twice p q c :
  set_parameters p (set_parameters q c) = set_parameters p c.
Proof. done. Qed.

(** A turn of the loop changes nothing of the store but its entries,
    makes no system call and only adds to the log. *)
Lemma update_line_frame text w :
  config (snd (update_line text w))
  = set_parameters (parameters (config (snd (update_line text w)))) (config w)
  /\ syscalls (snd (update_line text w)) = syscalls w
  /\ exists lines, logged (snd (update_line text w)) = (logged w ++ lines)%list.
Proof.
  assert (Hnil : exists lines, logged w = (logged w ++ lines)%list)
    by (exists []; by rewrite app_nil_r).
  unfold update_line. run.
  destruct (SplitConfigurationFileLine text) as [[key value]|err].
  - destruct (map_index (parameters (config w)) key) as [stored found].
    destruct (found && bool_decide (stored = value)); simpl.
    { by rewrite set_parameters_same. }
    destruct (negb found && ShouldLogUpdates (config w));
      [|destruct (found && ShouldLogUpdates (config w))]; simpl;
      destruct (parameters (config w)) eqn:Hp; simpl;
      rewrite <- ?Hp, ?set_parameters_same; repeat split; eauto.
  - destruct err; simpl; try destruct (ShouldLogUpdates (config w)); simpl;
      rewrite ?set_parameters_same; repeat split; eauto.
Qed.

(** On an allocated map a turn of the loop returns, and does to the
    entries what [store_line] says. *)
Lemma update_line_allocated text w g :
  parameters (config w) = Some g ->
  fst (update_line text w) = Returned tt
  /\ parameters (config (snd (update_line text w))) = Some (store_line text g).
Proof.
  intros Hp. unfold update_line, store_line. run. rewrite Hp.
  destruct (SplitConfigurationFileLine text) as [[key value]|err]; simpl.
  - destruct (g !! key) as [stored|] eqn:Hk; simpl.
    + case_bool_decide as Heq; simpl.
      * subst stored. by rewrite insert_id.
      * destruct (ShouldLogUpdates (config w)); simpl; by rewrite Hp.
    + destruct (ShouldLogUpdates (config w)); simpl; by rewrite Hp.
  - destruct err; simpl; try destruct (ShouldLogUpdates (config w)); done.
Qed.

(** On the nil map a turn of the loop panics as soon as the line parses,
    and the map stays nil. *)
Lemma update_line_nil text w :
  parameters (config w) = None ->
  parameters (config (snd (update_line text w))) = None
  /\ fst (update_line text w)
     = match SplitConfigurationFileLine text with
       | inl _ => Panicked nil_map_panic
       | inr _ => Returned tt
       end.
Proof.
  intros Hp. unfold update_line. run. rewrite Hp.
  destruct (SplitConfigurationFileLine text) as [[key value]|err]; simpl.
  - destruct (ShouldLogUpdates (config w)); simpl; by rewrite Hp.
  - destruct err; simpl; try destruct (ShouldLogUpdates (config w)); done.
Qed.

Lemma scan_cons text rest w :
  scan (text :: rest) w
  = match update_line text w with
    | (Returned _, w') => scan rest w'
    | (Panicked r, w') => (Panicked r, w')
    | (Blocked, w') => (Blocked, w')
    end.
Proof. reflexivity. Qed.

Lemma scan_frame lines w :
  config (snd (scan lines w))
  = set_parameters (parameters (config (snd (scan lines w)))) (config w)
  /\ syscalls (snd (scan lines w)) = syscalls w
  /\ exists added, logged (snd (scan lines w)) = (logged w ++ added)%list.
Proof.
  revert w. induction lines as [|text rest IH]; intros w.
  - simpl. rewrite set_parameters_same. repeat split.
    exists []. by rewrite app_nil_r.
  - rewrite scan_cons.
    destruct (update_line_frame text w) as (Hc & Hs & l1 & Hl).
    destruct (update_line text w) as [[[]|r|] w1]; simpl in *; [|by eauto..].
    destruct (IH w1) as (Hc' & Hs' & l2 & Hl').
    rewrite Hc', Hs', Hl', Hc, Hs, Hl. simpl. repeat split.
    exists (l1 ++ l2)%list. by rewrite app_assoc.
Qed.

Lemma scan_allocated lines w g :
  parameters (config w) = Some g ->
  fst (scan lines w) = Returned tt
  /\ parameters (config (snd (scan lines w))) = Some (store_lines lines g).
Proof.
  revert w g. induction lines as [|text rest IH]; intros w g Hp; [done|].
  rewrite scan_cons. destruct (update_line_allocated text w g Hp) as [Hr Hq].
  destruct (update_line text w) as [o w1]; simpl in *. subst o.
  exact (IH w1 _ Hq).
Qed.

(** On the nil map the scan returns exactly when no line parses. *)
Lemma scan_nil lines w :
  parameters (config w) = None ->
  parameters (config (snd (scan lines w))) = None
  /\ fst (scan lines w)
     = if forallb (fun text => negb (parses text)) lines
       then Returned tt else Panicked nil_map_panic.
Proof.
  revert w. induction lines as [|text rest IH]; intros w Hp; [done|].
  rewrite scan_cons. destruct (update_line_nil text w Hp) as [Hq Hr].
  destruct (update_line text w) as [o w1]; simpl in *. subst o.
  unfold parses.
  destruct (SplitConfigurationFileLine text) as [[key value]|err]; simpl.
  - done.
  - exact (IH w1 Hq).
Qed.

(** ** The reconciliation pass, case by case *)

Section Pass.
Context (fs : FileSystem) (w : World).
Let path := filename (config w).

Lemma After_Unix (t : Z) :
  time.After t (time.Unix 0 (lastupdate (config w)))
  = (lastupdate (config w) <? t)%Z.
Proof. unfold time.After, time.Unix. f_equal. Qed.

Lemma update_stat_fails err :
  Stat fs path = inr err ->
  fst (update fs w) = Returned tt
  /\ config (snd (update fs w)) = config w
  /\ syscalls (snd (update fs w)) = (syscalls w ++ [SysStat path])%list.
Proof.
  subst path. intros Hs. unfold update. run. rewrite Hs.
  by destruct err as [| |op p []].
Qed.

Lemma update_not_newer stat :
  Stat fs path = inl stat ->
  (ModTime stat <= lastupdate (config w))%Z ->
  update fs w = (Returned tt, called [SysStat path] w).
Proof.
  subst path. intros Hs Hle. unfold update. run. rewrite Hs, After_Unix.
  by rewrite (proj2 (Z.ltb_ge _ _) Hle).
Qed.

Lemma update_open_fails stat err :
  Stat fs path = inl stat ->
  (lastupdate (config w) < ModTime stat)%Z ->
  Open fs path = inr err ->
  fst (update fs w) = Returned tt
  /\ config (snd (update fs w)) = config w
  /\ syscalls (snd (update fs w))
     = (syscalls w ++ [SysStat path; SysOpen path])%list.
Proof.
  subst path. intros Hs Hlt Ho. unfold update. run.
  rewrite Hs, After_Unix, (proj2 (Z.ltb_lt _ _) Hlt). simpl. rewrite Ho.
  simpl. by rewrite <- app_assoc.
Qed.

Lemma update_reads stat data :
  Stat fs path = inl stat ->
  (lastupdate (config w) < ModTime stat)%Z ->
  Open fs path = inl data ->
  update fs w
  = (scan (bufio.ScanLines data) ;;
     modify (set_lastupdate (time.UnixNano (ModTime stat))))
      (called [SysStat path; SysOpen path] w).
Proof.
  subst path. intros Hs Hlt Ho. unfold update, called. run.
  rewrite Hs, After_Unix, (proj2 (Z.ltb_lt _ _) Hlt). simpl. rewrite Ho.
  by rewrite <- app_assoc.
Qed.

End Pass.

(** ** The reconciliation pass as a whole *)

(** The pass never touches the path, the mutex or the logging toggle. *)
Lemma update_frame fs w :
  filename (config (snd (update fs w))) = filename (config w)
  /\ mutex (config (snd (update fs w))) = mutex (config w)
  /\ ShouldLogUpdates (config (snd (update fs w))) = ShouldLogUpdates (config w).
Proof.
  destruct (Stat fs (filename (config w))) as [stat|err] eqn:Hs.
  - destruct (Z.ltb_spec (lastupdate (config w)) (ModTime stat)) as [Hlt|Hle].
    + destruct (Open fs (filename (config w))) as [data|err] eqn:Ho.
      * rewrite (update_reads fs w stat data Hs Hlt Ho). unfold bind.
        destruct (scan_frame (bufio.ScanLines data)
                    (called [SysStat (filename (config w));
                             SysOpen (filename (config w))] w))
          as (Hc & _ & _).
        destruct (scan _ _) as [[[]|r|] w1]; simpl in *; by rewrite Hc.
      * destruct (update_open_fails fs w stat err Hs Hlt Ho) as (_ & -> & _).
        done.
    + by rewrite (update_not_newer fs w stat Hs Hle).
  - destruct (update_stat_fails fs w err Hs) as (_ & -> & _). done.
Qed.

(** With an allocated map the pass always returns, and leaves the store
    [reconciled]. *)
Lemma update_allocated fs w g :
  parameters (config w) = Some g ->
  fst (update fs w) = Returned tt
  /\ config (snd (update fs w)) = reconciled fs (config w) g.
Proof.
  intros Hp. unfold reconciled.
  destruct (Stat fs (filename (config w))) as [stat|err] eqn:Hs.
  - destruct (Z.ltb_spec (lastupdate (config w)) (ModTime stat)) as [Hlt|Hle].
    + destruct (Open fs (filename (config w))) as [data|err] eqn:Ho.
      * rewrite (update_reads fs w stat data Hs Hlt Ho). unfold bind.
        set (w0 := called _ w).
        destruct (scan_allocated (bufio.ScanLines data) w0 g Hp) as [Hr Hq].
        destruct (scan_frame (bufio.ScanLines data) w0) as (Hc & _ & _).
        destruct (scan _ w0) as [o w1]; simpl in *. subst o. simpl.
        by rewrite Hc, Hq.
      * destruct (update_open_fails fs w stat err Hs Hlt Ho) as (-> & -> & _).
        done.
    + rewrite (update_not_newer fs w stat Hs Hle).
      by destruct (Open fs _).
  - destruct (update_stat_fails fs w err Hs) as (-> & -> & _). done.
Qed.

(** On the nil map the pass leaves the map nil, whatever happens. *)
Lemma update_nil fs w :
  parameters (config w) = None ->
  parameters (config (snd (update fs w))) = None.
Proof.
  intros Hp.
  destruct (Stat fs (filename (config w))) as [stat|err] eqn:Hs.
  - destruct (Z.ltb_spec (lastupdate (config w)) (ModTime stat)) as [Hlt|Hle].
    + destruct (Open fs (filename (config w))) as [data|err] eqn:Ho.
      * rewrite (update_reads fs w stat data Hs Hlt Ho). unfold bind.
        set (w0 := called _ w).
        destruct (scan_nil (bufio.ScanLines data) w0 Hp) as [Hq _].
        destruct (scan _ w0) as [[[]|r|] w1]; simpl in *; done.
      * destruct (update_open_fails fs w stat err Hs Hlt Ho) as (_ & -> & _).
        done.
    + by rewrite (update_not_newer fs w stat Hs Hle).
  - destruct (update_stat_fails fs w err Hs) as (_ & -> & _). done.
Qed.

(** On the nil map a pass that reads a file with a line that parses
    panics, and records no time. *)
Lemma update_nil_panics fs w stat data :
  parameters (config w) = None ->
  Stat fs (filename (config w)) = inl stat ->
  (lastupdate (config w) < ModTime stat)%Z ->
  Open fs (filename (config w)) = inl data ->
  existsb parses (bufio.ScanLines data) = true ->
  fst (update fs w) = Panicked nil_map_panic
  /\ config (snd (update fs w)) = config w.
Proof.
  intros Hp Hs Hlt Ho Hex.
  rewrite (update_reads fs w stat data Hs Hlt Ho). unfold bind.
  set (w0 := called _ w).
  destruct (scan_nil (bufio.ScanLines data) w0 Hp) as [Hq Hr].
  destruct (scan_frame (bufio.ScanLines data) w0) as (Hc & _ & _).
  assert (Hall : forallb (fun text => negb (parses text)) (bufio.ScanLines data)
                 = false).
  { apply not_true_is_false. intros Hall.
    apply existsb_exists in Hex as (text & Hin & Hparse).
    rewrite forallb_forall in Hall. specialize (Hall text Hin).
    by rewrite Hparse in Hall. }
  rewrite Hall in Hr.
  destruct (scan _ w0) as [o w1]; simpl in *. subst o. simpl.
  split; [done|]. rewrite Hc, Hq. apply set_parameters_same_nil. exact Hp.
Qed.

(** ** The constructor *)

Lemma NewWithContext_unfold g fs name shouldLog :
  NewWithContext g fs name shouldLog
  = update fs (with_config (set_should_log (initial_should_log g shouldLog))
                 (literal name)).
Proof. reflexivity. Qed.

(** The map of a new store is nil, and stays so: nothing in the package
    allocates it. *)
Lemma NewWithContext_nil g fs name shouldLog :
  parameters (config (snd (NewWithContext g fs name shouldLog))) = None.
Proof. rewrite NewWithContext_unfold. by apply update_nil. Qed.

Lemma NewWithContext_unlocked g fs name shouldLog :
  mutex (config (snd (NewWithContext g fs name shouldLog))) = Unlocked.
Proof.
  rewrite NewWithContext_unfold.
  by destruct (update_frame fs (with_config
       (set_should_log (initial_should_log g shouldLog)) (literal name)))
    as (_ & -> & _).
Qed.

Lemma SetKeyValue_nil key value w :
  parameters (config w) = None ->
  mutex (config w) = Unlocked ->
  fst (SetKeyValue key value w) = Panicked nil_map_panic.
Proof.
  intros Hp Hm. unfold SetKeyValue, Lock. run. rewrite Hm. simpl. rewrite Hp.
  simpl. destruct (ShouldLogUpdates (config w)); simpl; by rewrite Hp.
Qed.

Lemma Get_returns key w :
  mutex (config w) <> WriteLocked ->
  fst (Get key w) = Returned (fst (map_index (parameters (config w)) key)).
Proof.
  intros Hm. unfold Get, RLock. run.
  by destruct (mutex (config w)).
Qed.

(** Whatever the constructor is given, [SetKeyValue] panics on the store
    it made and [Get] returns the empty string. *)
Lemma SetKeyValue_panics_on_new_store g fs name shouldLog key value :
  fst (SetKeyValue key value (snd (NewWithContext g fs name shouldLog)))
  = Panicked nil_map_panic
  /\ fst (Get key (snd (NewWithContext g fs name shouldLog))) = Returned "".
Proof.
  split.
  - apply SetKeyValue_nil;
      [apply NewWithContext_nil | apply NewWithContext_unlocked].
  - rewrite Get_returns
      by (rewrite NewWithContext_unlocked; discriminate).
    by rewrite NewWithContext_nil.
Qed.

(** C1, at a store the code makes. [New] on a path with no file returns a
    store; on that store [Get] returns the empty string, and
    [SetKeyValue] does not complete: it panics on the assignment to the
    map, which is nil. *)
Theorem C1_SetKeyValue_panics_on_store_from_New :
  fst (New defaults no_files "app.conf" []) = Returned tt
  /\ parameters (config (snd (New defaults no_files "app.conf" []))) = None
  /\ fst (Get "k" (snd (New defaults no_files "app.conf" []))) = Returned ""
  /\ fst (SetKeyValue "k" "v" (snd (New defaults no_files "app.conf" [])))
     = Panicked nil_map_panic.
Proof. vm_compute. repeat split. Qed.

(** C2, at the file of the claim. [New] pointed at an existing file
    holding the lines [a=1] and [b=2] does not return: its reconciliation
    panics on the first line, and nothing is stored. *)
Theorem C2_New_panics_on_file_with_entries :
  fst (New defaults
         (one_file "app.conf" 1700000000000000000
            (inl ("a=1" ++ line_feed ++ "b=2")))
         "app.conf" [])
  = Panicked nil_map_panic
  /\ parameters (config (snd (New defaults
         (one_file "app.conf" 1700000000000000000
            (inl ("a=1" ++ line_feed ++ "b=2")))
         "app.conf" []))) = None.
Proof. vm_compute. repeat split. Qed.

(** C3, at a store the code makes. On the store that [New] returns, a
    pass over a file that can be statted, is newer and can be opened does
    not record the time of the stat when a line parses: it panics first.
    It does record it when no line parses. *)
Theorem C3_timestamp_not_set_when_pass_panics :
  let w := snd (New defaults no_files "app.conf" []) in
  let fs := one_file "app.conf" 1000 (inl "a=1") in
  let unparsable := one_file "app.conf" 1000 (inl ("novalue" ++ line_feed)) in
  Stat fs "app.conf" = inl {| ModTime := 1000 |}
  /\ Open fs "app.conf" = inl "a=1"
  /\ lastupdate (config w) = 0%Z
  /\ fst (update fs w) = Panicked nil_map_panic
  /\ lastupdate (config (snd (update fs w))) = 0%Z
  /\ fst (update unparsable w) = Returned tt
  /\ lastupdate (config (snd (update unparsable w))) = 1000%Z.
Proof. vm_compute. repeat split. Qed.

(** C5, at a store the code makes. On the store that [New] returns,
    [SetFilename] with a new path stores the path and releases the mutex,
    but the reconciliation it runs panics on the first line of the new
    file: the contents are not loaded, and the next [Get] returns the
    empty string. *)
Theorem C5_SetFilename_panics_on_new_file :
  let w := snd (New defaults no_files "old.conf" []) in
  let fs := one_file "new.conf" 1000 (inl "a=1") in
  fst (SetFilename fs "new.conf" w) = Panicked nil_map_panic
  /\ filename (config (snd (SetFilename fs "new.conf" w))) = "new.conf"
  /\ mutex (config (snd (SetFilename fs "new.conf" w))) = Unlocked
  /\ fst (Get "a" (snd (SetFilename fs "new.conf" w))) = Returned "".
Proof. vm_compute. repeat split. Qed.

(** C10. The logging toggle of a new store is the one value given when
    exactly one is given, and [DefaultShouldLog] when none or several are
    given; this holds of the store whether the constructor returns or its
    first reconciliation panics. *)
Theorem C10_logging_toggle_initialised (g : Globals) (fs : FileSystem)
    (name : string) (shouldLog : list bool) :
  ShouldLogUpdates (config (snd (NewWithContext g fs name shouldLog)))
  = match shouldLog with
    | [b] => b
    | _ => DefaultShouldLog g
    end
  /\ New g fs name shouldLog = NewWithContext g fs name shouldLog.
Proof.
  split; [|reflexivity]. rewrite NewWithContext_unfold.
  destruct (update_frame fs (with_config
       (set_should_log (initial_should_log g shouldLog)) (literal name)))
    as (_ & _ & ->).
  by destruct shouldLog as [|b [|b' rest]].
Qed.

(** ** Direct writes *)

Lemma relock_same w :
  mutex (config w) = Unlocked ->
  with_config (set_mutex Unlocked) (with_config (set_mutex WriteLocked) w) = w.
Proof. destruct w as [[f l p m s] lg sc]. simpl. by intros ->. Qed.

(** [SetKeyValue] of the value a key already has: nothing changes. *)
Lemma SetKeyValue_same key value w g :
  parameters (config w) = Some g ->
  g !! key = Some value ->
  snd (SetKeyValue key value w) = w
  /\ (mutex (config w) = Unlocked ->
      fst (SetKeyValue key value w) = Returned tt).
Proof.
  intros Hp Hk. unfold SetKeyValue, Lock, Unlock. run.
  destruct (mutex (config w)) eqn:Hm; simpl; [|done..].
  rewrite Hp. simpl. rewrite Hk. simpl.
  rewrite bool_decide_eq_true_2 by done. simpl.
  split; [|done]. by apply (relock_same w).
Qed.

(** [SetKeyValue] on an allocated map and a free mutex returns, stores
    the value and frees the mutex again. *)
Lemma SetKeyValue_allocated key value w g :
  parameters (config w) = Some g ->
  mutex (config w) = Unlocked ->
  fst (SetKeyValue key value w) = Returned tt
  /\ parameters (config (snd (SetKeyValue key value w)))
     = Some (<[key := value]> g)
  /\ mutex (config (snd (SetKeyValue key value w))) = Unlocked.
Proof.
  intros Hp Hm. unfold SetKeyValue, Lock, Unlock. run. rewrite Hm. simpl.
  rewrite Hp. simpl.
  destruct (g !! key) as [stored|] eqn:Hk; simpl.
  - case_bool_decide as Heq; simpl.
    + subst stored. by rewrite Hp, insert_id.
    + destruct (ShouldLogUpdates (config w)); simpl; by rewrite Hp.
  - destruct (ShouldLogUpdates (config w)); simpl; by rewrite Hp.
Qed.

Lemma SetKeyValue_blocked key value w :
  mutex (config w) <> Unlocked ->
  SetKeyValue key value w = (Blocked, w).
Proof.
  intros Hm. unfold SetKeyValue, Lock. run.
  by destruct (mutex (config w)).
Qed.

(** C8. When the map already has [value] under [key], [SetKeyValue key
    value] changes nothing of the world: not the entries, not the log
    (and it returns, when the mutex is free). And for every store,
    setting a key to a value twice is the same as setting it once. *)
Theorem C8_SetKeyValue_same_value_is_noop (w : World) (key value : string) :
  (forall g,
      parameters (config w) = Some g ->
      g !! key = Some value ->
      snd (SetKeyValue key value w) = w
      /\ logged (snd (SetKeyValue key value w)) = logged w
      /\ (mutex (config w) = Unlocked ->
          fst (SetKeyValue key value w) = Returned tt))
  /\ (SetKeyValue key value ;; SetKeyValue key value) w
     = SetKeyValue key value w.
Proof.
  split.
  - intros g Hp Hk. destruct (SetKeyValue_same key value w g Hp Hk) as [Hw Hr].
    by rewrite Hw.
  - unfold bind at 1.
    assert (mutex (config w) = Unlocked \/ mutex (config w) <> Unlocked)
      as [Hm|Hm] by (destruct (mutex (config w)); [left|right..]; done).
    + destruct (parameters (config w)) as [g|] eqn:Hp.
      * destruct (SetKeyValue_allocated key value w g Hp Hm) as (Hr & Hq & Hu).
        destruct (SetKeyValue key value w) as [o w1]; simpl in *. subst o.
        destruct (SetKeyValue_same key value w1 _ Hq (lookup_insert_eq _ _ _))
          as [Hw Hret].
        rewrite (surjective_pairing (SetKeyValue key value w1)).
        by rewrite Hw, (Hret Hu).
      * pose proof (SetKeyValue_nil key value w Hp Hm) as Hr.
        destruct (SetKeyValue key value w) as [o w1]; simpl in *. by subst o.
    + by rewrite (SetKeyValue_blocked key value w Hm).
Qed.

Lemma C8_witness :
  snd (SetKeyValue "a" "1" (allocated "app.conf" 0 {[ "a" := "1" ]}))
  = allocated "app.conf" 0 {[ "a" := "1" ]}
  /\ logged (snd (SetKeyValue "a" "1" (allocated "app.conf" 0 {[ "a" := "1" ]})))
     = []
  /\ (Unlocked = Unlocked ->
      fst (SetKeyValue "a" "1" (allocated "app.conf" 0 {[ "a" := "1" ]}))
      = Returned tt).
Proof.
  apply (proj1 (C8_SetKeyValue_same_value_is_noop
                  (allocated "app.conf" 0 {[ "a" := "1" ]}) "a" "1")
           {[ "a" := "1" ]}).
  - reflexivity.
  - vm_compute. reflexivity.
Defined.

(** ** Keys are never removed *)

Lemma store_line_is_Some text g key :
  is_Some (g !! key) -> is_Some (store_line text g !! key).
Proof.
  unfold store_line.
  destruct (SplitConfigurationFileLine text) as [[k v]|err]; [|done].
  intros Hk. destruct (decide (k = key)) as [->|Hne].
  - rewrite lookup_insert_eq. by eexists.
  - by rewrite lookup_insert_ne.
Qed.

Lemma store_lines_is_Some lines g key :
  is_Some (g !! key) -> is_Some (store_lines lines g !! key).
Proof.
  unfold store_lines. revert g.
  induction lines as [|text rest IH]; intros g Hk; [done|].
  simpl. apply IH. by apply store_line_is_Some.
Qed.

Lemma store_lines_other lines g key :
  ~ supplies lines key -> store_lines lines g !! key = g !! key.
Proof.
  unfold store_lines. revert g.
  induction lines as [|text rest IH]; intros g Hno; [done|].
  simpl. rewrite IH.
  - unfold store_line.
    destruct (SplitConfigurationFileLine text) as [[k v]|err] eqn:Hsplit;
      [|done].
    apply lookup_insert_ne. intros ->. apply Hno.
    exists text, v. split; [apply list_elem_of_here | done].
  - intros (text' & v & Hin & Hsplit). apply Hno.
    exists text', v. split; [by apply list_elem_of_further | done].
Qed.

Lemma keeps_keys_refl w : keeps_keys w w.
Proof. by intros key. Qed.

Lemma keeps_keys_trans w1 w2 w3 :
  keeps_keys w1 w2 -> keeps_keys w2 w3 -> keeps_keys w1 w3.
Proof. intros H12 H23 key Hk. by apply H23, H12. Qed.

Lemma keeps_keys_same_parameters w w' :
  parameters (config w') = parameters (config w) -> keeps_keys w w'.
Proof. intros Hp key. unfold entries. by rewrite Hp. Qed.

Lemma reconciled_keeps fs c g key :
  parameters c = Some g ->
  is_Some (g !! key) ->
  is_Some (default ∅ (parameters (reconciled fs c g)) !! key).
Proof.
  intros Hp Hk. unfold reconciled.
  destruct (Stat fs (filename c)) as [stat|]; [|by rewrite Hp].
  destruct (Open fs (filename c)) as [data|]; [|by rewrite Hp].
  destruct (lastupdate c <? ModTime stat)%Z; [|by rewrite Hp].
  simpl. by apply store_lines_is_Some.
Qed.

Lemma update_keeps fs w : keeps_keys w (snd (update fs w)).
Proof.
  intros key. unfold entries.
  destruct (parameters (config w)) as [g|] eqn:Hp.
  - destruct (update_allocated fs w g Hp) as [_ ->]. simpl.
    by apply reconciled_keeps.
  - simpl. rewrite lookup_empty. by intros [? ?].
Qed.

(** The pass ends by returning or by the panic of the nil map; it never
    waits. *)
Lemma update_outcome fs w :
  fst (update fs w) = Returned tt
  \/ fst (update fs w) = Panicked nil_map_panic.
Proof.
  destruct (parameters (config w)) as [g|] eqn:Hp.
  - left. by apply (update_allocated fs w g).
  - destruct (Stat fs (filename (config w))) as [stat|err] eqn:Hs.
    + destruct (Z.ltb_spec (lastupdate (config w)) (ModTime stat)) as [Hlt|Hle].
      * destruct (Open fs (filename (config w))) as [data|err] eqn:Ho.
        -- rewrite (update_reads fs w stat data Hs Hlt Ho). unfold bind.
           set (w0 := called _ w).
           destruct (scan_nil (bufio.ScanLines data) w0 Hp) as [_ Hr].
           destruct (scan _ w0) as [o w1]; simpl in *. subst o.
           destruct (forallb _ _); [by left | by right].
        -- left. by apply (update_open_fails fs w stat err).
      * left. by rewrite (update_not_newer fs w stat Hs Hle).
    + left. by apply (update_stat_fails fs w err).
Qed.

Lemma deferred_Unlock_update fs w :
  deferred Unlock (update fs) w
  = (fst (update fs w), Unlock (snd (update fs w))).
Proof.
  unfold deferred. destruct (update_outcome fs w) as [Hr|Hr];
    destruct (update fs w) as [o w1]; simpl in *; by subst o.
Qed.

Lemma Update_unlocked fs w :
  mutex (config w) = Unlocked ->
  Update fs w
  = (fst (update fs (with_config (set_mutex WriteLocked) w)),
     Unlock (snd (update fs (with_config (set_mutex WriteLocked) w)))).
Proof.
  intros Hm. unfold Update, bind, Lock. rewrite Hm.
  apply deferred_Unlock_update.
Qed.

Lemma locked_out {A} (body : M A) w :
  mutex (config w) <> Unlocked -> (Lock ;; body) w = (Blocked, w).
Proof. intros Hm. unfold bind, Lock. by destruct (mutex (config w)). Qed.

(** [SetFilename] with the mutex free: the pass runs on the store with
    the mutex held for writing and the path retargeted, and the mutex is
    released when the pass ends, however it ends. *)
Lemma SetFilename_unlocked fs name w :
  mutex (config w) = Unlocked ->
  SetFilename fs name w
  = (fst (update fs (with_config (retarget name)
                       (with_config (set_mutex WriteLocked) w))),
     Unlock (snd (update fs (with_config (retarget name)
                               (with_config (set_mutex WriteLocked) w))))).
Proof.
  intros Hm. unfold SetFilename. unfold bind at 1. unfold Lock. rewrite Hm.
  set (w1 := with_config (set_mutex WriteLocked) w).
  unfold deferred.
  assert (Hbody : (let* c := get in
                   when (negb (bool_decide (filename c = name)))
                     (modify (set_filename name) ;; modify (set_lastupdate 0)) ;;
                   update fs) w1
                  = update fs (with_config (retarget name) w1)).
  { unfold bind, get, when, modify, ret, with_config, retarget. simpl.
    case_bool_decide; reflexivity. }
  rewrite Hbody.
  destruct (update_outcome fs (with_config (retarget name) w1)) as [Hr|Hr];
    destruct (update fs _) as [o w2]; simpl in *; by subst o.
Qed.

Lemma not_supplies lines key :
  existsb (line_supplies key) lines = false -> ~ supplies lines key.
Proof.
  intros Hex (text & value & Hin & Hsplit).
  apply not_true_iff_false in Hex. apply Hex, existsb_exists.
  exists text. split; [by apply list_elem_of_In|].
  unfold line_supplies. rewrite Hsplit. by apply bool_decide_eq_true_2.
Qed.

Lemma Get_parameters key w :
  parameters (config (snd (Get key w))) = parameters (config w).
Proof.
  unfold Get, bind, RLock, deferred, RUnlock, get, ret, with_config.
  destruct (mutex (config w)) as [| |[|n]]; reflexivity.
Qed.

Lemma GetSlice_parameters keys w :
  parameters (config (snd (GetSlice keys w))) = parameters (config w).
Proof.
  unfold GetSlice, bind, RLock, deferred, RUnlock, get, ret, with_config.
  destruct (mutex (config w)) as [| |[|n]]; reflexivity.
Qed.

Lemma locked_pass_keeps fs w w1 :
  parameters (config w1) = parameters (config w) ->
  keeps_keys w (Unlock (snd (update fs w1))).
Proof.
  intros Hp. apply keeps_keys_trans with w1;
    [by apply keeps_keys_same_parameters|].
  apply keeps_keys_trans with (snd (update fs w1)); [apply update_keeps|].
  by apply keeps_keys_same_parameters.
Qed.

Lemma perform_keeps fs op w : keeps_keys w (snd (perform fs op w)).
Proof.
  assert (mutex (config w) = Unlocked \/ mutex (config w) <> Unlocked)
    as [Hm|Hm] by (destruct (mutex (config w)); [left|right..]; done).
  all: destruct op as [name|key value|key|keys| |]; simpl.
  - rewrite (SetFilename_unlocked fs name w Hm). simpl.
    apply locked_pass_keeps. unfold retarget. simpl. by case_bool_decide.
  - destruct (parameters (config w)) as [g|] eqn:Hp.
    + destruct (SetKeyValue_allocated key value w g Hp Hm) as (_ & Hq & _).
      intros k. unfold entries. rewrite Hq, Hp. simpl. intros Hk.
      destruct (decide (key = k)) as [->|Hne].
      * rewrite lookup_insert_eq. by eexists.
      * by rewrite lookup_insert_ne.
    + intros k. unfold entries at 1. rewrite Hp. simpl. rewrite lookup_empty.
      by intros [? ?].
  - unfold bind at 1. pose proof (Get_parameters key w) as Hq.
    destruct (Get key w) as [[v|r|] w1]; simpl in *;
      by apply keeps_keys_same_parameters.
  - unfold bind at 1. pose proof (GetSlice_parameters keys w) as Hq.
    destruct (GetSlice keys w) as [[v|r|] w1]; simpl in *;
      by apply keeps_keys_same_parameters.
  - rewrite (Update_unlocked fs w Hm). simpl. by apply locked_pass_keeps.
  - apply update_keeps.
  - unfold SetFilename. rewrite locked_out by done. apply keeps_keys_refl.
  - rewrite SetKeyValue_blocked by done. apply keeps_keys_refl.
  - unfold bind at 1. pose proof (Get_parameters key w) as Hq.
    destruct (Get key w) as [[v|r|] w1]; simpl in *;
      by apply keeps_keys_same_parameters.
  - unfold bind at 1. pose proof (GetSlice_parameters keys w) as Hq.
    destruct (GetSlice keys w) as [[v|r|] w1]; simpl in *;
      by apply keeps_keys_same_parameters.
  - unfold Update. rewrite locked_out by done. apply keeps_keys_refl.
  - apply update_keeps.
Qed.

Lemma history_keeps h w : keeps_keys w (snd (history h w)).
Proof.
  revert w. induction h as [|[fs op] later IH]; intros w.
  - apply keeps_keys_refl.
  - simpl. unfold bind at 1. pose proof (perform_keeps fs op w) as Hstep.
    destruct (perform fs op w) as [[[]|r|] w1]; simpl in *; [|done..].
    by eapply keeps_keys_trans.
Qed.

(** [SetFilename] leaves a key its value when the file at the new path
    has no line for it. *)
Lemma SetFilename_keeps_value fs name w key value :
  entries w !! key = Some value ->
  file_supplies fs name key = false ->
  entries (snd (SetFilename fs name w)) !! key = Some value.
Proof.
  intros Hk Hno.
  assert (mutex (config w) = Unlocked \/ mutex (config w) <> Unlocked)
    as [Hm|Hm] by (destruct (mutex (config w)); [left|right..]; done).
  - rewrite (SetFilename_unlocked fs name w Hm). simpl.
    set (w1 := with_config (retarget name) _).
    unfold entries in *. simpl.
    destruct (parameters (config w)) as [g|] eqn:Hp; [|done]. simpl in Hk.
    assert (Hp1 : parameters (config w1) = Some g).
    { subst w1. unfold retarget. simpl. by case_bool_decide. }
    assert (Hf1 : filename (config w1) = name).
    { subst w1. unfold retarget. simpl. by case_bool_decide. }
    destruct (update_allocated fs w1 g Hp1) as [_ ->].
    unfold reconciled. rewrite Hf1. unfold file_supplies in Hno.
    destruct (Stat fs name) as [stat|]; [|by rewrite Hp1].
    destruct (Open fs name) as [data|]; [|by rewrite Hp1].
    destruct (lastupdate (config w1) <? ModTime stat)%Z; [|by rewrite Hp1].
    simpl. rewrite store_lines_other; [done|]. by apply not_supplies.
  - unfold SetFilename. by rewrite locked_out.
Qed.

(** C9. Through any history of calls ([SetKeyValue], [SetFilename],
    [Update], [Get], [GetSlice], reconciliation passes), each on the file
    system of its moment, every key the store has stays in it. And after
    [SetFilename], a key keeps the value it had unless the file at the
    new path has a line for that key. *)
Theorem C9_keys_never_removed :
  (forall (h : list (FileSystem * call)) (w : World) (key : string),
      is_Some (entries w !! key) ->
      is_Some (entries (snd (history h w)) !! key))
  /\ (forall (fs : FileSystem) (name : string) (w : World) (key value : string),
        entries w !! key = Some value ->
        file_supplies fs name key = false ->
        entries (snd (SetFilename fs name w)) !! key = Some value).
Proof.
  split.
  - intros h w key. apply history_keeps.
  - apply SetFilename_keeps_value.
Qed.

Lemma C9_witness :
  entries (snd (SetFilename (one_file "new.conf" 1000 (inl "a=9")) "new.conf"
                  (allocated "old.conf" 5000 {[ "a" := "1"; "b" := "2" ]})))
  !! "b" = Some "2".
Proof.
  apply (proj2 C9_keys_never_removed).
  - vm_compute. reflexivity.
  - vm_compute. reflexivity.
Defined.

(** ** The gate of the pass *)

(** The system calls of a pass: one stat, and one open when the file is
    newer than what was last applied. *)
Lemma update_calls fs w :
  calls_of (update fs) w
  = SysStat (filename (config w))
      :: (if newer fs (config w) then [SysOpen (filename (config w))] else []).
Proof.
  unfold calls_of, newer.
  destruct (Stat fs (filename (config w))) as [stat|err] eqn:Hs.
  - destruct (Z.ltb_spec (lastupdate (config w)) (ModTime stat)) as [Hlt|Hle].
    + destruct (Open fs (filename (config w))) as [data|err] eqn:Ho.
      * rewrite (update_reads fs w stat data Hs Hlt Ho). unfold bind.
        set (w0 := called _ w).
        destruct (scan_frame (bufio.ScanLines data) w0) as (_ & Hc & _).
        destruct (scan _ w0) as [[[]|r|] w1]; simpl in *; rewrite Hc;
          apply drop_app_length.
      * destruct (update_open_fails fs w stat err Hs Hlt Ho) as (_ & _ & ->).
        apply drop_app_length.
    + rewrite (update_not_newer fs w stat Hs Hle). simpl.
      apply drop_app_length.
  - destruct (update_stat_fails fs w err Hs) as (_ & _ & ->).
    apply drop_app_length.
Qed.

Lemma rereads_iff fs w :
  rereads fs w
  <-> exists stat data,
        Stat fs (filename (config w)) = inl stat
        /\ (lastupdate (config w) < ModTime stat)%Z
        /\ Open fs (filename (config w)) = inl data.
Proof.
  unfold rereads. rewrite update_calls. unfold newer. split.
  - intros [Hin [data Ho]].
    destruct (Stat fs (filename (config w))) as [stat|err].
    + destruct (Z.ltb_spec (lastupdate (config w)) (ModTime stat)) as [Hlt|Hle].
      * by exists stat, data.
      * apply list_elem_of_In in Hin. by destruct Hin as [?|[]].
    + apply list_elem_of_In in Hin. by destruct Hin as [?|[]].
  - intros (stat & data & -> & Hlt & Ho).
    rewrite (proj2 (Z.ltb_lt _ _) Hlt). split; [|by exists data].
    apply list_elem_of_In. right. by left.
Qed.

(** C4 as it is stated fails, on the store [New] returns: the file is
    strictly newer than what was last applied, and the pass neither
    re-reads it nor applies it, because it cannot be opened; the pass
    returns and the store is as it was. *)
Lemma C4_counterexample :
  Stat unreadable (filename (config fresh_store)) = inl {| ModTime := 2000 |}
  /\ (lastupdate (config fresh_store) < 2000)%Z
  /\ ~ rereads unreadable fresh_store
  /\ fst (update unreadable fresh_store) = Returned tt
  /\ config (snd (update unreadable fresh_store)) = config fresh_store.
Proof.
  split_and!; [reflexivity | reflexivity | | reflexivity | reflexivity].
  intros [_ [data Ho]]. vm_compute in Ho. discriminate.
Qed.

(** C4, amended. A pass re-reads the file exactly when the stat
    succeeds, the modification time is strictly after [lastupdate] and
    the open succeeds; then, on an allocated map, it returns with the
    lines of the file applied. When the modification time is not strictly
    after, the pass returns without opening the file and changes nothing
    of the store, whatever the bytes of the file. In every case where the
    file is not re-read the entries are unchanged. *)
Theorem C4_pass_gated_by_modification_time (fs : FileSystem) (w : World) :
  (rereads fs w
   <-> exists stat data,
         Stat fs (filename (config w)) = inl stat
         /\ (lastupdate (config w) < ModTime stat)%Z
         /\ Open fs (filename (config w)) = inl data)
  /\ (forall g stat data,
        parameters (config w) = Some g ->
        Stat fs (filename (config w)) = inl stat ->
        (lastupdate (config w) < ModTime stat)%Z ->
        Open fs (filename (config w)) = inl data ->
        fst (update fs w) = Returned tt
        /\ parameters (config (snd (update fs w)))
           = Some (store_lines (bufio.ScanLines data) g))
  /\ (forall stat,
        Stat fs (filename (config w)) = inl stat ->
        (ModTime stat <= lastupdate (config w))%Z ->
        fst (update fs w) = Returned tt
        /\ config (snd (update fs w)) = config w
        /\ calls_of (update fs) w = [SysStat (filename (config w))])
  /\ (~ rereads fs w -> config (snd (update fs w)) = config w).
Proof.
  split_and!.
  - apply rereads_iff.
  - intros g stat data Hp Hs Hlt Ho.
    destruct (update_allocated fs w g Hp) as [-> ->]. split; [done|].
    unfold reconciled. by rewrite Hs, Ho, (proj2 (Z.ltb_lt _ _) Hlt).
  - intros stat Hs Hle. rewrite update_calls. unfold newer.
    rewrite Hs, (proj2 (Z.ltb_ge _ _) Hle).
    by rewrite (update_not_newer fs w stat Hs Hle).
  - rewrite rereads_iff. intros Hno.
    destruct (Stat fs (filename (config w))) as [stat|err] eqn:Hs.
    + destruct (Z.ltb_spec (lastupdate (config w)) (ModTime stat)) as [Hlt|Hle].
      * destruct (Open fs (filename (config w))) as [data|err] eqn:Ho.
        -- exfalso. apply Hno. by exists stat, data.
        -- by apply (update_open_fails fs w stat err).
      * by rewrite (update_not_newer fs w stat Hs Hle).
    + by apply (update_stat_fails fs w err).
Qed.

Lemma C4_witness :
  fst (update (one_file "app.conf" 2000 (inl "a=2")) store_a1) = Returned tt
  /\ parameters (config (snd (update (one_file "app.conf" 2000 (inl "a=2"))
                                store_a1)))
     = Some (store_lines (bufio.ScanLines "a=2") {[ "a" := "1" ]}).
Proof.
  apply (proj1 (proj2 (C4_pass_gated_by_modification_time
                         (one_file "app.conf" 2000 (inl "a=2")) store_a1))
           {[ "a" := "1" ]} {| ModTime := 2000 |} "a=2").
  - reflexivity.
  - reflexivity.
  - vm_compute. reflexivity.
  - reflexivity.
Defined.

(** ** What the code does once the map is allocated

    Nothing in the package allocates the map, but a test inside the
    package can. On such a store the pass, [SetFilename] and the readers
    behave as follows. *)

Lemma UnixNano_in_range t :
  (- 2 ^ 63 <= t < 2 ^ 63)%Z -> time.UnixNano t = t.
Proof.
  intros Ht. unfold time.UnixNano. rewrite Z.mod_small; lia.
Qed.

(** On an allocated map the time of the stat is recorded exactly when
    the stat succeeds, the file is newer and the open succeeds, however
    many lines fail to parse. *)
Lemma update_timestamp_allocated fs w g :
  parameters (config w) = Some g ->
  lastupdate (config (snd (update fs w)))
  = match Stat fs (filename (config w)), Open fs (filename (config w)) with
    | inl stat, inl _ =>
        if (lastupdate (config w) <? ModTime stat)%Z
        then time.UnixNano (ModTime stat) else lastupdate (config w)
    | _, _ => lastupdate (config w)
    end.
Proof.
  intros Hp. destruct (update_allocated fs w g Hp) as [_ ->].
  unfold reconciled.
  destruct (Stat fs _) as [stat|]; [|done].
  destruct (Open fs _) as [data|]; [|done].
  by destruct (_ <? _)%Z.
Qed.

(** On an allocated map [SetFilename] with a new path loads the file at
    that path when it can be statted and opened and its modification time
    is after the epoch, whatever [lastupdate] was before. *)
Lemma SetFilename_loads fs name w g stat data :
  parameters (config w) = Some g ->
  mutex (config w) = Unlocked ->
  filename (config w) <> name ->
  Stat fs name = inl stat ->
  (0 < ModTime stat)%Z ->
  Open fs name = inl data ->
  fst (SetFilename fs name w) = Returned tt
  /\ config (snd (SetFilename fs name w))
     = set_lastupdate (time.UnixNano (ModTime stat))
         (set_parameters (Some (store_lines (bufio.ScanLines data) g))
            (set_filename name (config w))).
Proof.
  intros Hp Hm Hne Hs Hlt Ho. rewrite (SetFilename_unlocked fs name w Hm).
  set (w1 := with_config (retarget name) _).
  assert (Hc1 : config w1
                = set_lastupdate 0 (set_filename name
                    (set_mutex WriteLocked (config w)))).
  { subst w1. unfold retarget. simpl. by rewrite bool_decide_eq_false_2. }
  assert (Hp1 : parameters (config w1) = Some g) by by rewrite Hc1.
  destruct (update_allocated fs w1 g Hp1) as [Hr Hq]. simpl.
  split; [done|]. rewrite Hq. unfold reconciled. rewrite Hc1. simpl.
  rewrite Hs, Ho, (proj2 (Z.ltb_lt _ _) Hlt).
  destruct (config w) as [f l p m s]. simpl in *. by subst m.
Qed.

Example reload_sequence :
  let fs1 := one_file "app.conf" 1000 (inl ("a=1" ++ line_feed ++ "b=2")) in
  let fs2 := one_file "app.conf" 2000 (inl "a=2") in
  let same := one_file "app.conf" 1000 (inl "a=2") in
  let w1 := snd (Update fs1 (allocated "app.conf" 0 ∅)) in
  fst (Get "a" w1) = Returned "1"
  /\ fst (GetSlice ["a"; "missing"; "b"] w1) = Returned ["1"; ""; "2"]
  /\ fst (Get "a" (snd (Update fs2 w1))) = Returned "2"
  /\ fst (Get "a" (snd (Update same w1))) = Returned "1".
Proof. vm_compute. repeat split. Qed.

Example scan_lines :
  bufio.ScanLines ("a=1" ++ line_feed ++ line_feed ++ "b=2"
                   ++ String bufio.carriage_return line_feed ++ "c")
  = ["a=1"; ""; "b=2"; "c"].
Proof. vm_compute. reflexivity. Qed.

Example split_colon :
  SplitConfigurationFileLine "  k:v=w " = inl ("k", "v=w").
Proof. vm_compute. reflexivity. Qed.

Example split_inner_space :
  SplitConfigurationFileLine " key = some value "
  = inl ("key ", " some value").
Proof. vm_compute. reflexivity. Qed.

Example split_unicode_blank :
  SplitConfigurationFileLine (Bytes.of_codes [32; 9; 194; 160; 226; 128; 131; 13])
  = inr ErrEmptyParameter.
Proof. vm_compute. reflexivity. Qed.


(** * Further properties of the code *)

(** ** Readers *)

Lemma map_index_stored w key :
  fst (map_index (parameters (config w)) key) = stored w key.
Proof.
  unfold stored, entries, map_index.
  destruct (parameters (config w)) as [g|]; simpl; [|by rewrite lookup_empty].
  by destruct (g !! key).
Qed.

(** Taking the mutex for reading and giving it back leaves the world as
    it was. *)
Lemma read_lock_round w :
  mutex (config w) <> WriteLocked ->
  exists w1, RLock w = (Returned tt, w1)
             /\ config w1 = set_mutex (mutex (config w1)) (config w)
             /\ logged w1 = logged w /\ syscalls w1 = syscalls w
             /\ RUnlock w1 = w.
Proof.
  intros Hm. unfold RLock, RUnlock, with_config.
  destruct w as [[f l p m s] lg sc]. simpl in *.
  destruct m as [| |n]; [|done|]; eexists; repeat split.
Qed.

Lemma foldl_snoc {A B} (f : A -> B) (init : list B) (l : list A) :
  foldl (fun acc x => (acc ++ [f x])%list) init l = (init ++ map f l)%list.
Proof.
  revert init. induction l as [|x l IH]; intros init; simpl.
  - by rewrite app_nil_r.
  - by rewrite IH, <- app_assoc.
Qed.

(** X1. [GetSlice], when no writer holds the mutex, returns one value for
    each key given, in the order given: the value stored under the key,
    or the empty string for a key that is absent. The result is as long
    as the input, and the world is left as it was. *)
Theorem X1_GetSlice_pointwise (w : World) (keys : list string) :
  mutex (config w) <> WriteLocked ->
  fst (GetSlice keys w) = Returned (map (stored w) keys)
  /\ length (map (stored w) keys) = length keys
  /\ snd (GetSlice keys w) = w.
Proof.
  intros Hm. destruct (read_lock_round w Hm) as (w1 & HL & Hc & Hlg & Hsc & HU).
  unfold GetSlice, bind, deferred, get, ret. rewrite HL. simpl.
  split_and!; [|apply length_map|exact HU].
  f_equal. rewrite foldl_snoc. simpl. apply map_ext. intros key.
  rewrite <- (map_index_stored w key). by rewrite Hc.
Qed.

Lemma X1_witness :
  fst (GetSlice ["a"; "missing"] store_a1)
  = Returned (map (stored store_a1) ["a"; "missing"])
  /\ length (map (stored store_a1) ["a"; "missing"]) = 2
  /\ snd (GetSlice ["a"; "missing"] store_a1) = store_a1.
Proof.
  apply (X1_GetSlice_pointwise store_a1 ["a"; "missing"]). vm_compute.
  discriminate.
Defined.

(** X2. [Get], when no writer holds the mutex, returns the value stored
    under the key, the empty string when the key is absent or the map is
    nil, and leaves the world as it was. While a writer holds the mutex
    it waits, and nothing changes. *)
Theorem X2_Get_reads_without_change (w : World) (key : string) :
  (mutex (config w) <> WriteLocked ->
   fst (Get key w) = Returned (stored w key) /\ snd (Get key w) = w)
  /\ (entries w !! key = None -> stored w key = "")
  /\ (mutex (config w) = WriteLocked -> Get key w = (Blocked, w)).
Proof.
  split_and!.
  - intros Hm.
    destruct (read_lock_round w Hm) as (w1 & HL & Hc & Hlg & Hsc & HU).
    unfold Get, bind, deferred, get, ret. rewrite HL. simpl.
    split; [|exact HU]. f_equal.
    rewrite <- (map_index_stored w key). by rewrite Hc.
  - unfold stored. by intros ->.
  - intros Hm. unfold Get, bind, RLock. by rewrite Hm.
Qed.

Lemma X2_witness :
  fst (Get "a" store_a1) = Returned (stored store_a1 "a")
  /\ snd (Get "a" store_a1) = store_a1.
Proof.
  apply (proj1 (X2_Get_reads_without_change store_a1 "a")). vm_compute.
  discriminate.
Defined.

(** ** Writers *)

Lemma Get_stored key w :
  mutex (config w) <> WriteLocked -> fst (Get key w) = Returned (stored w key).
Proof. intros Hm. by rewrite Get_returns, map_index_stored. Qed.

(** What [SetKeyValue] logs on an allocated map with the mutex free. *)
Lemma SetKeyValue_logged key value w g :
  parameters (config w) = Some g ->
  mutex (config w) = Unlocked ->
  logged (snd (SetKeyValue key value w))
  = (logged w
     ++ if ShouldLogUpdates (config w) then
          match g !! key with
          | None => [stored_line key value]
          | Some old =>
              if bool_decide (old = value) then []
              else [updated_line key old value]
          end
        else [])%list.
Proof.
  intros Hp Hm. unfold SetKeyValue, Lock, Unlock. run. rewrite Hm. simpl.
  rewrite Hp. simpl.
  destruct (g !! key) as [old|] eqn:Hk; simpl.
  - case_bool_decide as Heq; simpl.
    + destruct (ShouldLogUpdates (config w)); by rewrite app_nil_r.
    + destruct (ShouldLogUpdates (config w)); simpl; rewrite Hp; simpl;
        by rewrite ?app_nil_r.
  - destruct (ShouldLogUpdates (config w)); simpl; rewrite Hp; simpl;
      by rewrite ?app_nil_r.
Qed.

(** X3. On a store whose map is allocated and whose mutex is free,
    [SetKeyValue key value] returns, after it [Get key] returns [value],
    and every other key reads as before. *)
Theorem X3_SetKeyValue_then_Get (w : World) (g : gmap string string)
    (key value : string) :
  parameters (config w) = Some g ->
  mutex (config w) = Unlocked ->
  fst (SetKeyValue key value w) = Returned tt
  /\ fst (Get key (snd (SetKeyValue key value w))) = Returned value
  /\ (forall other, other <> key ->
        stored (snd (SetKeyValue key value w)) other = stored w other).
Proof.
  intros Hp Hm.
  destruct (SetKeyValue_allocated key value w g Hp Hm) as (Hr & Hq & Hu).
  split_and!; [done| |].
  - rewrite Get_stored by (rewrite Hu; discriminate).
    unfold stored, entries. by rewrite Hq; simpl; rewrite lookup_insert_eq.
  - intros other Hne. unfold stored, entries. rewrite Hq, Hp. simpl.
    by rewrite lookup_insert_ne.
Qed.

Lemma X3_witness :
  fst (SetKeyValue "b" "2" store_a1) = Returned tt
  /\ fst (Get "b" (snd (SetKeyValue "b" "2" store_a1))) = Returned "2"
  /\ (forall other, other <> "b" ->
        stored (snd (SetKeyValue "b" "2" store_a1)) other
        = stored store_a1 other).
Proof.
  apply (X3_SetKeyValue_then_Get store_a1 {[ "a" := "1" ]} "b" "2");
    reflexivity.
Defined.

(** X4. On a store whose map is allocated and whose mutex is free,
    [SetKeyValue] with logging on writes exactly one line: the "storing"
    line when the key is new, the "updating" line, with the old and the
    new value, when the key had another value. With logging off it
    writes none. *)
Theorem X4_SetKeyValue_log_lines (w : World) (g : gmap string string)
    (key value : string) :
  parameters (config w) = Some g ->
  mutex (config w) = Unlocked ->
  (ShouldLogUpdates (config w) = true ->
   g !! key = None ->
   logged (snd (SetKeyValue key value w))
   = (logged w ++ [stored_line key value])%list)
  /\ (forall old,
        ShouldLogUpdates (config w) = true ->
        g !! key = Some old ->
        old <> value ->
        logged (snd (SetKeyValue key value w))
        = (logged w ++ [updated_line key old value])%list)
  /\ (ShouldLogUpdates (config w) = false ->
      logged (snd (SetKeyValue key value w)) = logged w).
Proof.
  intros Hp Hm. rewrite (SetKeyValue_logged key value w g Hp Hm).
  split_and!.
  - by intros -> ->.
  - intros old -> -> Hne. by rewrite bool_decide_eq_false_2.
  - intros ->. by rewrite app_nil_r.
Qed.

Lemma X4_witness :
  logged (snd (SetKeyValue "a" "2" store_a1))
  = ([] ++ [updated_line "a" "1" "2"])%list.
Proof.
  apply (proj1 (proj2 (X4_SetKeyValue_log_lines store_a1 {[ "a" := "1" ]}
                         "a" "2" eq_refl eq_refl)) "1").
  - reflexivity.
  - vm_compute. reflexivity.
  - discriminate.
Defined.

(** ** The store the constructor makes *)

Lemma file_read_Some fs c stat data :
  file_read fs c = Some (stat, data)
  <-> Stat fs (filename c) = inl stat
      /\ (lastupdate c < ModTime stat)%Z
      /\ Open fs (filename c) = inl data.
Proof.
  unfold file_read. split.
  - destruct (Stat fs (filename c)) as [st|]; [|done].
    destruct (Open fs (filename c)) as [d|]; [|done].
    destruct (Z.ltb_spec (lastupdate c) (ModTime st)); [|done].
    by intros [= <- <-].
  - intros (-> & Hlt & ->). by rewrite (proj2 (Z.ltb_lt _ _) Hlt).
Qed.

(** The pass on the nil map, in full: it panics when it reads a file in
    which some line parses, and then records nothing; when it reads a
    file in which no line parses it records the time; otherwise it
    changes nothing. *)
Lemma update_nil_spec fs w :
  parameters (config w) = None ->
  match file_read fs (config w) with
  | Some (stat, data) =>
      if existsb parses (bufio.ScanLines data) then
        fst (update fs w) = Panicked nil_map_panic
        /\ config (snd (update fs w)) = config w
      else
        fst (update fs w) = Returned tt
        /\ config (snd (update fs w))
           = set_lastupdate (time.UnixNano (ModTime stat)) (config w)
  | None =>
      fst (update fs w) = Returned tt /\ config (snd (update fs w)) = config w
  end.
Proof.
  intros Hp. unfold file_read.
  destruct (Stat fs (filename (config w))) as [stat|err] eqn:Hs.
  - destruct (Open fs (filename (config w))) as [data|err] eqn:Ho.
    + destruct (Z.ltb_spec (lastupdate (config w)) (ModTime stat)) as [Hlt|Hle].
      * destruct (existsb parses (bufio.ScanLines data)) eqn:Hex.
        -- by apply (update_nil_panics fs w stat data).
        -- rewrite (update_reads fs w stat data Hs Hlt Ho). unfold bind.
           set (w0 := called _ w).
           destruct (scan_nil (bufio.ScanLines data) w0 Hp) as [Hq Hr].
           destruct (scan_frame (bufio.ScanLines data) w0) as (Hc & _ & _).
           assert (Hall : forallb (fun text => negb (parses text))
                            (bufio.ScanLines data) = true).
           { apply forallb_forall. intros text Hin.
             apply negb_true_iff, not_true_is_false. intros Hparse.
             apply not_true_iff_false in Hex. apply Hex, existsb_exists.
             by exists text. }
           rewrite Hall in Hr.
           destruct (scan _ w0) as [o w1]; simpl in *. subst o. simpl.
           split; [done|]. rewrite Hc, Hq. simpl.
           by rewrite (set_parameters_same_nil (config w) Hp).
      * by rewrite (update_not_newer fs w stat Hs Hle).
    + destruct (Z.ltb_spec (lastupdate (config w)) (ModTime stat)) as [Hlt|Hle].
      * destruct (update_open_fails fs w stat err Hs Hlt Ho) as (-> & -> & _).
        done.
      * by rewrite (update_not_newer fs w stat Hs Hle).
  - destruct (update_stat_fails fs w err Hs) as (-> & -> & _). done.
Qed.

Lemma SetKeyValue_keeps_nil key value w :
  parameters (config w) = None ->
  parameters (config (snd (SetKeyValue key value w))) = None.
Proof.
  intros Hp. unfold SetKeyValue, Lock, Unlock. run.
  destruct (mutex (config w)); simpl; [|done..]. rewrite Hp. simpl.
  destruct (ShouldLogUpdates (config w)); simpl; by rewrite Hp.
Qed.

Lemma perform_keeps_nil fs op w :
  parameters (config w) = None ->
  parameters (config (snd (perform fs op w))) = None.
Proof.
  intros Hp.
  assert (mutex (config w) = Unlocked \/ mutex (config w) <> Unlocked)
    as [Hm|Hm] by (destruct (mutex (config w)); [left|right..]; done).
  all: destruct op as [name|key value|key|keys| |]; simpl.
  - rewrite (SetFilename_unlocked fs name w Hm). simpl. apply update_nil.
    unfold retarget. simpl. by case_bool_decide.
  - by apply SetKeyValue_keeps_nil.
  - unfold bind at 1. pose proof (Get_parameters key w) as Hq.
    destruct (Get key w) as [[v|r|] w1]; simpl in *; congruence.
  - unfold bind at 1. pose proof (GetSlice_parameters keys w) as Hq.
    destruct (GetSlice keys w) as [[v|r|] w1]; simpl in *; congruence.
  - rewrite (Update_unlocked fs w Hm). simpl. by apply update_nil.
  - by apply update_nil.
  - unfold SetFilename. by rewrite locked_out.
  - by apply SetKeyValue_keeps_nil.
  - unfold bind at 1. pose proof (Get_parameters key w) as Hq.
    destruct (Get key w) as [[v|r|] w1]; simpl in *; congruence.
  - unfold bind at 1. pose proof (GetSlice_parameters keys w) as Hq.
    destruct (GetSlice keys w) as [[v|r|] w1]; simpl in *; congruence.
  - unfold Update. by rewrite locked_out.
  - by apply update_nil.
Qed.

Lemma history_keeps_nil h w :
  parameters (config w) = None ->
  parameters (config (snd (history h w))) = None.
Proof.
  revert w. induction h as [|[fs op] later IH]; intros w Hp; [done|].
  simpl. unfold bind at 1. pose proof (perform_keeps_nil fs op w Hp) as Hq.
  destruct (perform fs op w) as [[[]|r|] w1]; simpl in *; [|done..].
  by apply IH.
Qed.

(** X5. A store made by the constructor never holds an entry: whatever
    calls follow ([SetKeyValue], [SetFilename], [Update], passes, reads),
    on whatever files, its map stays nil, so every key reads as the empty
    string. *)
Theorem X5_constructed_store_stays_empty (g : Globals) (fs : FileSystem)
    (name : string) (shouldLog : list bool)
    (h : list (FileSystem * call)) (key : string) :
  parameters (config (snd (history h
     (snd (NewWithContext g fs name shouldLog))))) = None
  /\ stored (snd (history h (snd (NewWithContext g fs name shouldLog)))) key
     = "".
Proof.
  assert (Hnil : parameters (config (snd (history h
     (snd (NewWithContext g fs name shouldLog))))) = None)
    by apply history_keeps_nil, NewWithContext_nil.
  split; [done|]. unfold stored, entries. by rewrite Hnil.
Qed.

(** X6. The constructor panics exactly when the file at its path can be
    statted, has a modification time after the epoch, can be opened and
    has a line that parses; in every other case it returns. *)
Theorem X6_constructor_outcome (g : Globals) (fs : FileSystem)
    (name : string) (shouldLog : list bool) :
  (fst (NewWithContext g fs name shouldLog) = Panicked nil_map_panic
   <-> exists stat data,
         Stat fs name = inl stat
         /\ (0 < ModTime stat)%Z
         /\ Open fs name = inl data
         /\ existsb parses (bufio.ScanLines data) = true)
  /\ (fst (NewWithContext g fs name shouldLog) = Returned tt
      \/ fst (NewWithContext g fs name shouldLog) = Panicked nil_map_panic).
Proof.
  rewrite NewWithContext_unfold.
  set (w := with_config _ (literal name)).
  split; [|apply update_outcome].
  pose proof (update_nil_spec fs w eq_refl) as Hspec.
  destruct (file_read fs (config w)) as [[stat data]|] eqn:Hread.
  - apply file_read_Some in Hread as (Hs & Hlt & Ho). simpl in Hs, Hlt, Ho.
    destruct (existsb parses (bufio.ScanLines data)) eqn:Hex.
    + destruct Hspec as [-> _]. split; [|done]. intros _.
      by exists stat, data.
    + destruct Hspec as [-> _]. split; [done|].
      intros (stat' & data' & Hs' & _ & Ho' & Hex'). congruence.
  - destruct Hspec as [-> _]. split; [done|].
    intros (stat & data & Hs & Hlt & Ho & _).
    assert (file_read fs (config w) = Some (stat, data)) by
      by apply file_read_Some.
    congruence.
Qed.

(** ** How the calls compose *)

Lemma with_config_id w : with_config (fun c => c) w = w.
Proof. by destruct w. Qed.

(** X7. [SetFilename] with the path the store already has is [Update]:
    the timestamp is not reset and one pass runs under the mutex. *)
Theorem X7_SetFilename_same_path_is_Update (fs : FileSystem) (w : World) :
  SetFilename fs (filename (config w)) w = Update fs w.
Proof.
  assert (mutex (config w) = Unlocked \/ mutex (config w) <> Unlocked)
    as [Hm|Hm] by (destruct (mutex (config w)); [left|right..]; done).
  - rewrite (SetFilename_unlocked fs _ w Hm), (Update_unlocked fs w Hm).
    assert (Hsame : with_config (retarget (filename (config w)))
                      (with_config (set_mutex WriteLocked) w)
                    = with_config (set_mutex WriteLocked) w).
    { unfold retarget, with_config. simpl.
      by rewrite bool_decide_eq_true_2. }
    by rewrite Hsame.
  - unfold SetFilename, Update. by rewrite !locked_out.
Qed.

Lemma SetKeyValue_mutex key value w :
  mutex (config (snd (SetKeyValue key value w))) = mutex (config w).
Proof.
  unfold SetKeyValue, Lock, Unlock. run.
  destruct (mutex (config w)) eqn:Hm; simpl; [|done..].
  destruct (map_index (parameters (config w)) key) as [old found].
  destruct (found && bool_decide (old = value)); simpl; [done|].
  destruct (negb found && ShouldLogUpdates (config w));
    [|destruct (found && ShouldLogUpdates (config w))]; simpl;
    by destruct (parameters (config w)).
Qed.

Lemma Get_mutex key w :
  mutex (config (snd (Get key w))) = mutex (config w).
Proof.
  unfold Get, bind, RLock, deferred, RUnlock, get, ret, with_config.
  destruct (mutex (config w)) as [| |[|n]] eqn:Hm; simpl; by rewrite ?Hm.
Qed.

Lemma GetSlice_mutex keys w :
  mutex (config (snd (GetSlice keys w))) = mutex (config w).
Proof.
  unfold GetSlice, bind, RLock, deferred, RUnlock, get, ret, with_config.
  destruct (mutex (config w)) as [| |[|n]] eqn:Hm; simpl; by rewrite ?Hm.
Qed.

Lemma perform_mutex fs op w :
  mutex (config (snd (perform fs op w))) = mutex (config w).
Proof.
  assert (mutex (config w) = Unlocked \/ mutex (config w) <> Unlocked)
    as [Hm|Hm] by (destruct (mutex (config w)); [left|right..]; done).
  all: destruct op as [name|key value|key|keys| |]; simpl.
  - by rewrite (SetFilename_unlocked fs name w Hm).
  - apply SetKeyValue_mutex.
  - unfold bind at 1. pose proof (Get_mutex key w) as Hq.
    by destruct (Get key w) as [[v|r|] w1].
  - unfold bind at 1. pose proof (GetSlice_mutex keys w) as Hq.
    by destruct (GetSlice keys w) as [[v|r|] w1].
  - by rewrite (Update_unlocked fs w Hm).
  - apply update_frame.
  - unfold SetFilename. by rewrite locked_out.
  - apply SetKeyValue_mutex.
  - unfold bind at 1. pose proof (Get_mutex key w) as Hq.
    by destruct (Get key w) as [[v|r|] w1].
  - unfold bind at 1. pose proof (GetSlice_mutex keys w) as Hq.
    by destruct (GetSlice keys w) as [[v|r|] w1].
  - unfold Update. by rewrite locked_out.
  - apply update_frame.
Qed.

(** X8. Every call gives the mutex back as it found it, whether it
    returns, panics or waits: through any history of calls the mutex
    ends in the state it started in. In particular a panic inside
    [SetKeyValue], [SetFilename] or [Update] does not leave the store
    locked. *)
Theorem X8_mutex_released (h : list (FileSystem * call)) (w : World) :
  mutex (config (snd (history h w))) = mutex (config w).
Proof.
  revert w. induction h as [|[fs op] later IH]; intros w; [done|].
  simpl. unfold bind at 1. pose proof (perform_mutex fs op w) as Hq.
  destruct (perform fs op w) as [[[]|r|] w1]; simpl in *; [|done..].
  by rewrite IH.
Qed.

(** X9. [SetFilename], [SetKeyValue] and [Update] take the mutex for
    writing: while a reader or a writer holds it, each of them waits and
    changes nothing, neither the store nor the log, and makes no system
    call. *)
Theorem X9_writers_wait (fs : FileSystem) (op : call) (w : World) :
  is_writer op = true ->
  mutex (config w) <> Unlocked ->
  perform fs op w = (Blocked, w).
Proof.
  intros Hop Hm. destruct op as [name|key value|key|keys| |]; try done; simpl.
  - unfold SetFilename. by rewrite locked_out.
  - by apply SetKeyValue_blocked.
  - unfold Update. by rewrite locked_out.
Qed.

Lemma X9_witness :
  perform no_files (CallSetKeyValue "k" "v")
    (with_config (set_mutex (ReadLocked 0)) store_a1)
  = (Blocked, with_config (set_mutex (ReadLocked 0)) store_a1).
Proof.
  apply (X9_writers_wait no_files (CallSetKeyValue "k" "v")
           (with_config (set_mutex (ReadLocked 0)) store_a1)).
  - reflexivity.
  - vm_compute. discriminate.
Defined.

(** ** Files that cannot be read *)

Lemma update_stat_fails_logged fs w err :
  Stat fs (filename (config w)) = inr err ->
  logged (snd (update fs w))
  = (logged w
     ++ if errors.Is err IsErrNotExist then []
        else [open_error_line (filename (config w)) err])%list.
Proof.
  intros Hs. unfold update. run. rewrite Hs.
  destruct err as [| |op p []]; simpl; by rewrite ?app_nil_r.
Qed.

Lemma update_open_fails_logged fs w stat err :
  Stat fs (filename (config w)) = inl stat ->
  (lastupdate (config w) < ModTime stat)%Z ->
  Open fs (filename (config w)) = inr err ->
  logged (snd (update fs w))
  = (logged w ++ [open_error_line (filename (config w)) err])%list.
Proof.
  intros Hs Hlt Ho. unfold update. run.
  rewrite Hs, After_Unix, (proj2 (Z.ltb_lt _ _) Hlt). simpl. by rewrite Ho.
Qed.

(** X10. When the stat fails the pass returns, leaves the store as it
    was and does not open the file. It logs nothing when the file does
    not exist, and one line for any other failure, whether logging of
    updates is on or off. *)
Theorem X10_stat_failure (fs : FileSystem) (w : World) (err : error) :
  Stat fs (filename (config w)) = inr err ->
  fst (update fs w) = Returned tt
  /\ config (snd (update fs w)) = config w
  /\ calls_of (update fs) w = [SysStat (filename (config w))]
  /\ (errors.Is err IsErrNotExist = true ->
      logged (snd (update fs w)) = logged w)
  /\ (errors.Is err IsErrNotExist = false ->
      logged (snd (update fs w))
      = (logged w ++ [open_error_line (filename (config w)) err])%list).
Proof.
  intros Hs. destruct (update_stat_fails fs w err Hs) as (Hr & Hc & _).
  rewrite (update_stat_fails_logged fs w err Hs), update_calls.
  unfold newer. rewrite Hs.
  split_and!; [done..| |]; intros ->; by rewrite ?app_nil_r.
Qed.

Lemma X10_witness :
  fst (update no_files store_a1) = Returned tt
  /\ config (snd (update no_files store_a1)) = config store_a1
  /\ calls_of (update no_files) store_a1 = [SysStat "app.conf"]
  /\ (true = true -> logged (snd (update no_files store_a1)) = [])
  /\ (true = false ->
      logged (snd (update no_files store_a1))
      = ([] ++ [open_error_line "app.conf"
                  (PathError "stat" "app.conf" ENOENT)])%list).
Proof.
  apply (X10_stat_failure no_files store_a1
           (PathError "stat" "app.conf" ENOENT)).
  reflexivity.
Defined.

(** X11. When the file is newer and the open fails, the pass logs one
    line, whether logging of updates is on or off, returns, and leaves
    the store as it was; the timestamp is not advanced, so the next pass
    on the same files stats and opens again. *)
Theorem X11_open_failure_retried (fs : FileSystem) (w : World)
    (stat : FileInfo) (err : error) :
  Stat fs (filename (config w)) = inl stat ->
  (lastupdate (config w) < ModTime stat)%Z ->
  Open fs (filename (config w)) = inr err ->
  fst (update fs w) = Returned tt
  /\ config (snd (update fs w)) = config w
  /\ logged (snd (update fs w))
     = (logged w ++ [open_error_line (filename (config w)) err])%list
  /\ calls_of (update fs) (snd (update fs w))
     = [SysStat (filename (config w)); SysOpen (filename (config w))].
Proof.
  intros Hs Hlt Ho.
  destruct (update_open_fails fs w stat err Hs Hlt Ho) as (Hr & Hc & _).
  split_and!; [done | done | by apply (update_open_fails_logged fs w stat) |].
  rewrite update_calls. unfold newer. rewrite Hc, Hs.
  by rewrite (proj2 (Z.ltb_lt _ _) Hlt).
Qed.

Lemma X11_witness :
  fst (update unreadable store_a1) = Returned tt
  /\ config (snd (update unreadable store_a1)) = config store_a1
  /\ logged (snd (update unreadable store_a1))
     = ([] ++ [open_error_line "app.conf"
                 (PathError "open" "app.conf" EACCES)])%list
  /\ calls_of (update unreadable) (snd (update unreadable store_a1))
     = [SysStat "app.conf"; SysOpen "app.conf"].
Proof.
  apply (X11_open_failure_retried unreadable store_a1 {| ModTime := 2000 |}
           (PathError "open" "app.conf" EACCES));
    reflexivity.
Defined.

(** ** What a pass that reads the file leaves *)

(** The timestamp after a pass that read the file and returned. *)
Lemma update_read_lastupdate fs w stat data :
  file_read fs (config w) = Some (stat, data) ->
  fst (update fs w) = Returned tt ->
  lastupdate (config (snd (update fs w))) = time.UnixNano (ModTime stat).
Proof.
  intros Hread Hret.
  destruct (parameters (config w)) as [g|] eqn:Hp.
  - destruct (update_allocated fs w g Hp) as [_ ->]. unfold reconciled.
    apply file_read_Some in Hread as (-> & Hlt & ->).
    by rewrite (proj2 (Z.ltb_lt _ _) Hlt).
  - pose proof (update_nil_spec fs w Hp) as Hspec. rewrite Hread in Hspec.
    destruct (existsb parses (bufio.ScanLines data));
      destruct Hspec as [Hr ->]; [congruence | done].
Qed.

(** X12. A file is not read again until it changes: after a pass that
    read the file and returned, with a modification time that fits an
    [int64] of nanoseconds, the next pass on the same files makes one
    stat, opens nothing, and leaves the store as it is. *)
Theorem X12_unchanged_file_not_reread (fs : FileSystem) (w : World)
    (stat : FileInfo) (data : string) :
  file_read fs (config w) = Some (stat, data) ->
  int64 (ModTime stat) ->
  fst (update fs w) = Returned tt ->
  update fs (snd (update fs w))
  = (Returned tt,
     called [SysStat (filename (config w))] (snd (update fs w))).
Proof.
  intros Hread Hfit Hret.
  pose proof (update_read_lastupdate fs w stat data Hread Hret) as Hlast.
  rewrite (UnixNano_in_range _ Hfit) in Hlast.
  destruct (update_frame fs w) as (Hf & _ & _).
  apply file_read_Some in Hread as (Hs & _ & _).
  rewrite <- Hf. apply (update_not_newer fs _ stat).
  - by rewrite Hf.
  - rewrite Hlast. lia.
Qed.

Lemma X12_witness :
  update (one_file "app.conf" 2000 (inl "a=2"))
    (snd (update (one_file "app.conf" 2000 (inl "a=2")) store_a1))
  = (Returned tt,
     called [SysStat "app.conf"]
       (snd (update (one_file "app.conf" 2000 (inl "a=2")) store_a1))).
Proof.
  apply (X12_unchanged_file_not_reread (one_file "app.conf" 2000 (inl "a=2"))
           store_a1 {| ModTime := 2000 |} "a=2").
  - reflexivity.
  - unfold int64. simpl. lia.
  - vm_compute. reflexivity.
Defined.

Lemma store_lines_app before after g :
  store_lines (before ++ after) g = store_lines after (store_lines before g).
Proof. unfold store_lines. apply foldl_app. Qed.

(** X13. When a file has several lines for a key, the last one wins: on
    an allocated map, after a pass that reads the file, a key reads as
    the value of the last line that parses with that key. *)
Theorem X13_last_line_wins (fs : FileSystem) (w : World)
    (g : gmap string string) (stat : FileInfo) (data : string)
    (before after : list string) (text key value : string) :
  parameters (config w) = Some g ->
  file_read fs (config w) = Some (stat, data) ->
  bufio.ScanLines data = (before ++ text :: after)%list ->
  SplitConfigurationFileLine text = inl (key, value) ->
  existsb (line_supplies key) after = false ->
  fst (update fs w) = Returned tt
  /\ stored (snd (update fs w)) key = value.
Proof.
  intros Hp Hread Hlines Hsplit Hafter.
  destruct (update_allocated fs w g Hp) as [Hr Hc]. split; [done|].
  unfold stored, entries. rewrite Hc. unfold reconciled.
  apply file_read_Some in Hread as (-> & Hlt & ->).
  rewrite (proj2 (Z.ltb_lt _ _) Hlt). simpl.
  rewrite Hlines, store_lines_app.
  change (store_lines (text :: after) ?m)
    with (store_lines after (store_line text m)).
  rewrite store_lines_other by by apply not_supplies.
  unfold store_line. rewrite Hsplit. by rewrite lookup_insert_eq.
Qed.

Lemma X13_witness :
  fst (update (one_file "app.conf" 2000
                 (inl ("a=2" ++ line_feed ++ "b=0" ++ line_feed ++ "a=3")))
         store_a1) = Returned tt
  /\ stored (snd (update (one_file "app.conf" 2000
                 (inl ("a=2" ++ line_feed ++ "b=0" ++ line_feed ++ "a=3")))
         store_a1)) "a" = "3".
Proof.
  apply (X13_last_line_wins
           (one_file "app.conf" 2000
              (inl ("a=2" ++ line_feed ++ "b=0" ++ line_feed ++ "a=3")))
           store_a1 {[ "a" := "1" ]} {| ModTime := 2000 |}
           ("a=2" ++ line_feed ++ "b=0" ++ line_feed ++ "a=3")
           ["a=2"; "b=0"] [] "a=3" "a" "3");
    vm_compute; reflexivity.
Defined.

(** ** What a pass logs *)

Lemma update_line_blank text w :
  blank text = true -> update_line text w = (Returned tt, w).
Proof.
  unfold blank. intros Hb%bool_decide_eq_true.
  unfold update_line, SplitConfigurationFileLine. run. by rewrite Hb.
Qed.

Lemma scan_blank lines w :
  forallb blank lines = true -> scan lines w = (Returned tt, w).
Proof.
  induction lines as [|text rest IH]; [done|].
  simpl. intros [Hb Hrest]%andb_true_iff. unfold bind.
  by rewrite (update_line_blank text w Hb), IH.
Qed.

Lemma update_line_quiet text w :
  ShouldLogUpdates (config w) = false ->
  logged (snd (update_line text w)) = logged w
  /\ ShouldLogUpdates (config (snd (update_line text w))) = false.
Proof.
  intros Hq. destruct (update_line_frame text w) as (Hc & _ & _).
  split; [|by rewrite Hc].
  unfold update_line. run. rewrite Hq.
  destruct (SplitConfigurationFileLine text) as [[key value]|err].
  - destruct (map_index (parameters (config w)) key) as [old found].
    destruct (found && bool_decide (old = value)); simpl; [done|].
    rewrite !andb_false_r. simpl. by destruct (parameters (config w)).
  - by destruct err.
Qed.

Lemma scan_quiet lines w :
  ShouldLogUpdates (config w) = false ->
  logged (snd (scan lines w)) = logged w.
Proof.
  revert w. induction lines as [|text rest IH]; intros w Hq; [done|].
  rewrite scan_cons. destruct (update_line_quiet text w Hq) as [Hl Hq'].
  destruct (update_line text w) as [[[]|r|] w1]; simpl in *; [|done..].
  by rewrite IH.
Qed.

(** X14. Blank lines are skipped in silence: a pass that reads a file
    made of lines with nothing but white space returns, logs nothing even
    with logging on, stores nothing, and records the time of the stat.
    This holds on every store, the nil-map one included. *)
Theorem X14_blank_file (fs : FileSystem) (w : World)
    (stat : FileInfo) (data : string) :
  file_read fs (config w) = Some (stat, data) ->
  forallb blank (bufio.ScanLines data) = true ->
  fst (update fs w) = Returned tt
  /\ config (snd (update fs w))
     = set_lastupdate (time.UnixNano (ModTime stat)) (config w)
  /\ logged (snd (update fs w)) = logged w.
Proof.
  intros Hread Hblank. apply file_read_Some in Hread as (Hs & Hlt & Ho).
  rewrite (update_reads fs w stat data Hs Hlt Ho). unfold bind.
  by rewrite (scan_blank _ _ Hblank).
Qed.

Lemma X14_witness :
  fst (update (one_file "app.conf" 9 (inl (" " ++ line_feed ++ line_feed)))
         fresh_store) = Returned tt
  /\ config (snd (update (one_file "app.conf" 9
                            (inl (" " ++ line_feed ++ line_feed)))
                    fresh_store))
     = set_lastupdate (time.UnixNano 9) (config fresh_store)
  /\ logged (snd (update (one_file "app.conf" 9
                            (inl (" " ++ line_feed ++ line_feed)))
                    fresh_store))
     = logged fresh_store.
Proof.
  apply (X14_blank_file
           (one_file "app.conf" 9 (inl (" " ++ line_feed ++ line_feed)))
           fresh_store {| ModTime := 9 |} (" " ++ line_feed ++ line_feed));
    vm_compute; reflexivity.
Defined.

(** X15. With logging of updates off, a pass that reads the file logs
    nothing, whatever its lines and however it ends. *)
Theorem X15_quiet_pass (fs : FileSystem) (w : World)
    (stat : FileInfo) (data : string) :
  ShouldLogUpdates (config w) = false ->
  file_read fs (config w) = Some (stat, data) ->
  logged (snd (update fs w)) = logged w.
Proof.
  intros Hq Hread. apply file_read_Some in Hread as (Hs & Hlt & Ho).
  rewrite (update_reads fs w stat data Hs Hlt Ho). unfold bind.
  set (w0 := called _ w).
  pose proof (scan_quiet (bufio.ScanLines data) w0 Hq) as Hl.
  by destruct (scan _ w0) as [[[]|r|] w1].
Qed.

Lemma X15_witness :
  logged (snd (update (one_file "app.conf" 2000
                         (inl ("a=2" ++ line_feed ++ "novalue")))
                 (with_config (set_should_log false) store_a1)))
  = logged (with_config (set_should_log false) store_a1).
Proof.
  apply (X15_quiet_pass
           (one_file "app.conf" 2000 (inl ("a=2" ++ line_feed ++ "novalue")))
           (with_config (set_should_log false) store_a1)
           {| ModTime := 2000 |} ("a=2" ++ line_feed ++ "novalue"));
    reflexivity.
Defined.

(** ** Logging does not change what is stored *)

Lemma reconciled_toggle fs c g b :
  reconciled fs (set_should_log b c) g = set_should_log b (reconciled fs c g).
Proof.
  unfold reconciled. simpl.
  destruct (Stat fs (filename c)) as [stat|]; [|done].
  destruct (Open fs (filename c)) as [data|]; [|done].
  by destruct (lastupdate c <? ModTime stat)%Z.
Qed.

(** X16. The logging toggle changes nothing but the log: with the toggle
    set either way, a pass ends the same way, makes the same system calls
    and leaves the same store. *)
Theorem X16_toggle_only_changes_log (fs : FileSystem) (w : World) (b : bool) :
  fst (update fs (with_config (set_should_log b) w)) = fst (update fs w)
  /\ config (snd (update fs (with_config (set_should_log b) w)))
     = set_should_log b (config (snd (update fs w)))
  /\ calls_of (update fs) (with_config (set_should_log b) w)
     = calls_of (update fs) w.
Proof.
  split_and!; [| |by rewrite !update_calls].
  all: destruct (parameters (config w)) as [g|] eqn:Hp.
  - destruct (update_allocated fs w g Hp) as [-> _].
    by apply (update_allocated fs (with_config (set_should_log b) w) g).
  - pose proof (update_nil_spec fs w Hp) as H1.
    pose proof (update_nil_spec fs (with_config (set_should_log b) w) Hp) as H2.
    change (file_read fs (config (with_config (set_should_log b) w)))
      with (file_read fs (config w)) in H2.
    destruct (file_read fs (config w)) as [[stat data]|].
    + destruct (existsb parses (bufio.ScanLines data));
        destruct H1 as [-> _]; by destruct H2 as [-> _].
    + destruct H1 as [-> _]. by destruct H2 as [-> _].
  - destruct (update_allocated fs w g Hp) as [_ ->].
    destruct (update_allocated fs (with_config (set_should_log b) w) g Hp)
      as [_ ->].
    apply reconciled_toggle.
  - pose proof (update_nil_spec fs w Hp) as H1.
    pose proof (update_nil_spec fs (with_config (set_should_log b) w) Hp) as H2.
    change (file_read fs (config (with_config (set_should_log b) w)))
      with (file_read fs (config w)) in H2.
    destruct (file_read fs (config w)) as [[stat data]|].
    + destruct (existsb parses (bufio.ScanLines data));
        destruct H1 as [_ ->]; by destruct H2 as [_ ->].
    + destruct H1 as [_ ->]. by destruct H2 as [_ ->].
Qed.

(** ** White space before a line *)

Lemma TrimSpace_leading c line :
  Bytes.mem c ascii_space = true ->
  strings.TrimSpace (String c line) = strings.TrimSpace line.
Proof.
  intros Hc. unfold strings.TrimSpace.
  assert (Hstep : strings.trim_left (String.length (String c line))
                    (String c line)
                  = strings.trim_left (String.length line) line).
  { simpl in Hc. rewrite orb_false_r in Hc.
    repeat (apply orb_true_iff in Hc as [Hc|Hc]);
      apply bool_decide_eq_true in Hc; subst c; reflexivity. }
  by rewrite Hstep.
Qed.

(** X17. A tab, line feed, vertical tab, form feed, carriage return or
    space in front of a line does not change how it parses. *)
Theorem X17_leading_space_ignored (c : Ascii.ascii) (line : string) :
  Bytes.mem c ascii_space = true ->
  SplitConfigurationFileLine (String c line) = SplitConfigurationFileLine line.
Proof.
  intros Hc. unfold SplitConfigurationFileLine.
  by rewrite (TrimSpace_leading c line Hc).
Qed.

Lemma X17_witness :
  SplitConfigurationFileLine (String (Bytes.byte 9) "k=v")
  = SplitConfigurationFileLine "k=v".
Proof.
  apply (X17_leading_space_ignored (Bytes.byte 9) "k=v"). reflexivity.
Defined.

(** ** Changing the path *)

Lemma retargeted_config name w :
  mutex (config w) = Unlocked ->
  filename (config w) <> name ->
  set_mutex Unlocked
    (config (with_config (retarget name)
               (with_config (set_mutex WriteLocked) w)))
  = set_lastupdate 0 (set_filename name (config w)).
Proof.
  intros Hm Hne. unfold retarget. simpl.
  rewrite bool_decide_eq_false_2 by done.
  destruct (config w) as [f l p m s]. simpl in *. by subst m.
Qed.

(** [SetFilename] with a new path, when the pass it runs reads nothing:
    it returns with the path stored, the timestamp at zero and the
    entries as they were. *)
Lemma SetFilename_not_read fs name w :
  mutex (config w) = Unlocked ->
  filename (config w) <> name ->
  (forall w1, filename (config w1) = name -> lastupdate (config w1) = 0%Z ->
              fst (update fs w1) = Returned tt
              /\ config (snd (update fs w1)) = config w1) ->
  fst (SetFilename fs name w) = Returned tt
  /\ config (snd (SetFilename fs name w))
     = set_lastupdate 0 (set_filename name (config w)).
Proof.
  intros Hm Hne Hpass. rewrite (SetFilename_unlocked fs name w Hm).
  set (w1 := with_config (retarget name) _).
  assert (Hf : filename (config w1) = name).
  { subst w1. unfold retarget. simpl. by case_bool_decide. }
  assert (Hl : lastupdate (config w1) = 0%Z).
  { subst w1. unfold retarget. simpl. by rewrite bool_decide_eq_false_2. }
  destruct (Hpass w1 Hf Hl) as [Hr Hc]. simpl. split; [done|].
  unfold Unlock, with_config. simpl. rewrite Hc.
  by apply retargeted_config.
Qed.

(** X18. [SetFilename] with a new path at which the stat fails returns:
    the path is stored, the timestamp is back at zero and the entries are
    as they were; the missing file is left to later passes. *)
Theorem X18_SetFilename_missing_file (fs : FileSystem) (name : string)
    (w : World) (err : error) :
  mutex (config w) = Unlocked ->
  filename (config w) <> name ->
  Stat fs name = inr err ->
  fst (SetFilename fs name w) = Returned tt
  /\ config (snd (SetFilename fs name w))
     = set_lastupdate 0 (set_filename name (config w))
  /\ entries (snd (SetFilename fs name w)) = entries w.
Proof.
  intros Hm Hne Hs.
  assert (Hgoal : fst (SetFilename fs name w) = Returned tt
                  /\ config (snd (SetFilename fs name w))
                     = set_lastupdate 0 (set_filename name (config w))).
  { apply SetFilename_not_read; [done..|]. intros w1 Hf _.
    rewrite <- Hf in Hs.
    by destruct (update_stat_fails fs w1 err Hs) as (? & ? & _). }
  destruct Hgoal as [Hr Hc]. split_and!; [done..|].
  unfold entries. by rewrite Hc.
Qed.

Lemma X18_witness :
  fst (SetFilename no_files "other.conf" store_a1) = Returned tt
  /\ config (snd (SetFilename no_files "other.conf" store_a1))
     = set_lastupdate 0 (set_filename "other.conf" (config store_a1))
  /\ entries (snd (SetFilename no_files "other.conf" store_a1))
     = entries store_a1.
Proof.
  apply (X18_SetFilename_missing_file no_files "other.conf" store_a1
           (PathError "stat" "other.conf" ENOENT)).
  - reflexivity.
  - vm_compute. discriminate.
  - reflexivity.
Defined.

(** X19. A file whose modification time is not after the Unix epoch is
    never read by a store that has not applied anything yet: the
    constructor returns after one stat, without opening it, and
    [SetFilename] with that new path returns with the entries as they
    were. *)
Theorem X19_epoch_file_not_read (g : Globals) (fs : FileSystem)
    (name : string) (shouldLog : list bool) (stat : FileInfo) :
  Stat fs name = inl stat ->
  (ModTime stat <= 0)%Z ->
  (fst (NewWithContext g fs name shouldLog) = Returned tt
   /\ syscalls (snd (NewWithContext g fs name shouldLog)) = [SysStat name]
   /\ lastupdate (config (snd (NewWithContext g fs name shouldLog))) = 0%Z)
  /\ (forall w,
        mutex (config w) = Unlocked ->
        filename (config w) <> name ->
        fst (SetFilename fs name w) = Returned tt
        /\ config (snd (SetFilename fs name w))
           = set_lastupdate 0 (set_filename name (config w))).
Proof.
  intros Hs Hle. split.
  - rewrite NewWithContext_unfold.
    by rewrite (update_not_newer fs
                  (with_config
                     (set_should_log (initial_should_log g shouldLog))
                     (literal name)) stat Hs Hle).
  - intros w Hm Hne. apply SetFilename_not_read; [done..|].
    intros w1 Hf Hl. rewrite <- Hf in Hs. rewrite <- Hl in Hle.
    by rewrite (update_not_newer fs w1 stat Hs Hle).
Qed.

Lemma X19_witness :
  (fst (NewWithContext defaults (one_file "app.conf" 0 (inl "a=1"))
          "app.conf" []) = Returned tt
   /\ syscalls (snd (NewWithContext defaults
                       (one_file "app.conf" 0 (inl "a=1")) "app.conf" []))
      = [SysStat "app.conf"]
   /\ lastupdate (config (snd (NewWithContext defaults
                       (one_file "app.conf" 0 (inl "a=1")) "app.conf" [])))
      = 0%Z)
  /\ (forall w,
        mutex (config w) = Unlocked ->
        filename (config w) <> "app.conf" ->
        fst (SetFilename (one_file "app.conf" 0 (inl "a=1")) "app.conf" w)
        = Returned tt
        /\ config (snd (SetFilename (one_file "app.conf" 0 (inl "a=1"))
                          "app.conf" w))
           = set_lastupdate 0 (set_filename "app.conf" (config w))).
Proof.
  apply (X19_epoch_file_not_read defaults (one_file "app.conf" 0 (inl "a=1"))
           "app.conf" [] {| ModTime := 0 |}).
  - reflexivity.
  - simpl. lia.
Defined.

(** ** Stores with an allocated map *)

(** X20. On a store whose map is allocated, a pass always returns, and
    records the modification time exactly when it reads the file: the
    time itself when it fits an [int64] of nanoseconds; otherwise the
    timestamp is as it was. *)
Theorem X20_timestamp_on_allocated_map (fs : FileSystem) (w : World)
    (g : gmap string string) :
  parameters (config w) = Some g ->
  fst (update fs w) = Returned tt
  /\ (forall stat data,
        file_read fs (config w) = Some (stat, data) ->
        int64 (ModTime stat) ->
        lastupdate (config (snd (update fs w))) = ModTime stat)
  /\ (file_read fs (config w) = None ->
      lastupdate (config (snd (update fs w))) = lastupdate (config w)).
Proof.
  intros Hp. destruct (update_allocated fs w g Hp) as [Hr Hc].
  split_and!; [done| |].
  - intros stat data Hread Hfit.
    rewrite (update_read_lastupdate fs w stat data Hread Hr).
    by apply UnixNano_in_range.
  - rewrite Hc. unfold file_read, reconciled.
    destruct (Stat fs _) as [stat|]; [|done].
    destruct (Open fs _) as [data|]; [|done].
    by destruct (_ <? _)%Z.
Qed.

Lemma X20_witness :
  fst (update (one_file "app.conf" 2000 (inl "novalue")) store_a1)
  = Returned tt
  /\ (forall stat data,
        file_read (one_file "app.conf" 2000 (inl "novalue")) (config store_a1)
        = Some (stat, data) ->
        int64 (ModTime stat) ->
        lastupdate (config (snd (update
           (one_file "app.conf" 2000 (inl "novalue")) store_a1)))
        = ModTime stat)
  /\ (file_read (one_file "app.conf" 2000 (inl "novalue")) (config store_a1)
      = None ->
      lastupdate (config (snd (update
         (one_file "app.conf" 2000 (inl "novalue")) store_a1)))
      = lastupdate (config store_a1)).
Proof.
  apply (X20_timestamp_on_allocated_map
           (one_file "app.conf" 2000 (inl "novalue")) store_a1
           {[ "a" := "1" ]}).
  reflexivity.
Defined.

(** X21. On a store whose map is allocated and whose mutex is free,
    [SetFilename] with a new path loads the file at that path when it
    can be statted and opened and was modified after the epoch: this
    holds whatever the timestamp was, so also when the old file was the
    more recent one. Keys the new file has read as in its last line for
    them. *)
Theorem X21_SetFilename_loads_new_file (fs : FileSystem) (name : string)
    (w : World) (g : gmap string string) (stat : FileInfo) (data : string) :
  parameters (config w) = Some g ->
  mutex (config w) = Unlocked ->
  filename (config w) <> name ->
  Stat fs name = inl stat ->
  (0 < ModTime stat)%Z ->
  Open fs name = inl data ->
  fst (SetFilename fs name w) = Returned tt
  /\ filename (config (snd (SetFilename fs name w))) = name
  /\ mutex (config (snd (SetFilename fs name w))) = Unlocked
  /\ entries (snd (SetFilename fs name w))
     = store_lines (bufio.ScanLines data) g.
Proof.
  intros Hp Hm Hne Hs Hlt Ho.
  destruct (SetFilename_loads fs name w g stat data Hp Hm Hne Hs Hlt Ho)
    as [Hr Hc].
  unfold entries. rewrite Hc. simpl. by rewrite Hm.
Qed.

Lemma X21_witness :
  fst (SetFilename (one_file "new.conf" 5 (inl "b=2")) "new.conf" store_a1)
  = Returned tt
  /\ filename (config (snd (SetFilename (one_file "new.conf" 5 (inl "b=2"))
                              "new.conf" store_a1))) = "new.conf"
  /\ mutex (config (snd (SetFilename (one_file "new.conf" 5 (inl "b=2"))
                           "new.conf" store_a1))) = Unlocked
  /\ entries (snd (SetFilename (one_file "new.conf" 5 (inl "b=2"))
                     "new.conf" store_a1))
     = store_lines (bufio.ScanLines "b=2") {[ "a" := "1" ]}.
Proof.
  apply (X21_SetFilename_loads_new_file (one_file "new.conf" 5 (inl "b=2"))
           "new.conf" store_a1 {[ "a" := "1" ]} {| ModTime := 5 |} "b=2").
  - reflexivity.
  - reflexivity.
  - vm_compute. discriminate.
  - reflexivity.
  - simpl. lia.
  - reflexivity.
Defined.

Lemma SetKeyValue_config key value w g :
  parameters (config w) = Some g ->
  mutex (config w) = Unlocked ->
  config (snd (SetKeyValue key value w))
  = set_parameters (Some (<[key := value]> g)) (config w).
Proof.
  intros Hp Hm. unfold SetKeyValue, Lock, Unlock. run. rewrite Hm. simpl.
  rewrite Hp. simpl.
  assert (Hback : forall p, set_mutex Unlocked
                    (set_parameters p (set_mutex WriteLocked (config w)))
                  = set_parameters p (config w)).
  { intros p. destruct (config w) as [f l q m s]. simpl in *. by subst m. }
  destruct (g !! key) as [old|] eqn:Hk; simpl.
  - case_bool_decide as Heq; simpl.
    + subst old. rewrite insert_id by done. rewrite <- Hp.
      rewrite set_parameters_same.
      destruct (config w) as [f l q m s]. simpl in *. by subst m.
    + destruct (ShouldLogUpdates (config w)); simpl; rewrite Hp; simpl;
        apply Hback.
  - destruct (ShouldLogUpdates (config w)); simpl; rewrite Hp; simpl;
      apply Hback.
Qed.

(** X22. A value set by [SetKeyValue] is not overwritten by polling: on a
    store whose map is allocated, as long as the file is not newer than
    what was last applied, an [Update] after [SetKeyValue key value]
    leaves [key] reading as [value], whatever the file holds for it. *)
Theorem X22_direct_write_survives_polling (fs : FileSystem) (w : World)
    (g : gmap string string) (stat : FileInfo) (key value : string) :
  parameters (config w) = Some g ->
  mutex (config w) = Unlocked ->
  Stat fs (filename (config w)) = inl stat ->
  (ModTime stat <= lastupdate (config w))%Z ->
  fst (Update fs (snd (SetKeyValue key value w))) = Returned tt
  /\ stored (snd (Update fs (snd (SetKeyValue key value w)))) key = value.
Proof.
  intros Hp Hm Hs Hle.
  pose proof (SetKeyValue_config key value w g Hp Hm) as Hc.
  set (w1 := snd (SetKeyValue key value w)) in *.
  assert (Hm1 : mutex (config w1) = Unlocked) by by rewrite Hc.
  rewrite (Update_unlocked fs w1 Hm1).
  set (w2 := with_config (set_mutex WriteLocked) w1).
  assert (Hs2 : Stat fs (filename (config w2)) = inl stat).
  { subst w2. simpl. by rewrite Hc. }
  assert (Hle2 : (ModTime stat <= lastupdate (config w2))%Z).
  { subst w2. simpl. by rewrite Hc. }
  rewrite (update_not_newer fs w2 stat Hs2 Hle2). simpl. split; [done|].
  unfold stored, entries. simpl. rewrite Hc. simpl.
  by rewrite lookup_insert_eq.
Qed.

Lemma X22_witness :
  fst (Update (one_file "app.conf" 1000 (inl "a=1"))
         (snd (SetKeyValue "a" "7" store_a1))) = Returned tt
  /\ stored (snd (Update (one_file "app.conf" 1000 (inl "a=1"))
                    (snd (SetKeyValue "a" "7" store_a1)))) "a" = "7".
Proof.
  apply (X22_direct_write_survives_polling
           (one_file "app.conf" 1000 (inl "a=1")) store_a1
           {[ "a" := "1" ]} {| ModTime := 1000 |} "a" "7").
  - reflexivity.
  - reflexivity.
  - reflexivity.
  - simpl. lia.
Defined.

(** X23. On the nil map [SetKeyValue], with the mutex free, panics for
    every key and value and stores nothing; with logging on it has
    already written the "storing" line for the value that is not stored,
    and the mutex is free again after the panic. *)
Theorem X23_SetKeyValue_on_nil_map (w : World) (key value : string) :
  parameters (config w) = None ->
  mutex (config w) = Unlocked ->
  fst (SetKeyValue key value w) = Panicked nil_map_panic
  /\ config (snd (SetKeyValue key value w)) = config w
  /\ logged (snd (SetKeyValue key value w))
     = (logged w ++ if ShouldLogUpdates (config w)
                    then [stored_line key value] else [])%list.
Proof.
  intros Hp Hm. unfold SetKeyValue, Lock, Unlock. run. rewrite Hm. simpl.
  rewrite Hp. simpl.
  assert (Hback : set_mutex Unlocked (set_mutex WriteLocked (config w))
                  = config w).
  { destruct (config w) as [f l q m s]. simpl in *. by subst m. }
  destruct (ShouldLogUpdates (config w)); simpl; rewrite Hp; simpl;
    by rewrite ?app_nil_r.
Qed.

Lemma X23_witness :
  fst (SetKeyValue "k" "v" fresh_store) = Panicked nil_map_panic
  /\ config (snd (SetKeyValue "k" "v" fresh_store)) = config fresh_store
  /\ logged (snd (SetKeyValue "k" "v" fresh_store))
     = (logged fresh_store
        ++ if ShouldLogUpdates (config fresh_store)
           then [stored_line "k" "v"] else [])%list.
Proof.
  apply (X23_SetKeyValue_on_nil_map fresh_store "k" "v"); reflexivity.
Defined.

(** ** The refresher *)

Lemma refresher_cons fs later w :
  refresher (fs :: later) w
  = match Update fs w with
    | (Returned _, w') => refresher later w'
    | (Panicked r, w') => (Panicked r, w')
    | (Blocked, w') => (Blocked, w')
    end.
Proof. reflexivity. Qed.



(** X25. On the nil map, with the mutex free, the refresher ends at a
    tick that reads a file with a line that parses: that [Update] panics,
    the ticks after it do not run, and the mutex is free after the
    panic. *)
Theorem X25_refresher_panics_on_nil_map (fs : FileSystem)
    (later : list FileSystem) (w : World) (stat : FileInfo) (data : string) :
  parameters (config w) = None ->
  mutex (config w) = Unlocked ->
  file_read fs (config w) = Some (stat, data) ->
  existsb parses (bufio.ScanLines data) = true ->
  fst (refresher (fs :: later) w) = Panicked nil_map_panic
  /\ snd (refresher (fs :: later) w) = snd (Update fs w)
  /\ mutex (config (snd (refresher (fs :: later) w))) = Unlocked.
Proof.
  intros Hp Hm Hread Hex. rewrite refresher_cons, (Update_unlocked fs w Hm).
  set (w1 := with_config (set_mutex WriteLocked) w).
  pose proof (update_nil_spec fs w1 Hp) as Hspec.
  change (file_read fs (config w1)) with (file_read fs (config w)) in Hspec.
  rewrite Hread, Hex in Hspec. destruct Hspec as [Hr _]. by rewrite Hr.
Qed.

Lemma X25_witness :
  fst (refresher [one_file "app.conf" 1000 (inl "a=1"); no_files] fresh_store)
  = Panicked nil_map_panic
  /\ snd (refresher [one_file "app.conf" 1000 (inl "a=1"); no_files]
            fresh_store)
     = snd (Update (one_file "app.conf" 1000 (inl "a=1")) fresh_store)
  /\ mutex (config (snd (refresher
       [one_file "app.conf" 1000 (inl "a=1"); no_files] fresh_store)))
     = Unlocked.
Proof.
  apply (X25_refresher_panics_on_nil_map
           (one_file "app.conf" 1000 (inl "a=1")) [no_files] fresh_store
           {| ModTime := 1000 |} "a=1");
    reflexivity.
Defined.
